(** * Trace parsers and divergence comparator of [trace_ref.py]

    A shallow embedding of [AvidaTracer.parse_mabe_trace],
    [AvidaTracer.parse_avida_trace] and [AvidaTracer.compare_org_trace]
    (file [src/build/trace_ref.py]), with the properties of the
    specification stated over it.

    Conventions of the embedding:
    - a Python [str] is a [string] whose characters are read as the code
      points 0..255 (ASCII plus Latin-1); text outside that range is not
      modelled;
    - a Python [int] is a [Z];  [int(...)] has no limit on the number of
      digits;
    - a Python [list] is a [list], indexed through [!!] with the
      [IndexError] of an out-of-range subscript written out;
    - a Python [dict] is an association list in insertion order, which is
      the order in which [dict.keys()] iterates;
    - a raised exception aborts the computation: [result] is the error
      monad, and the partially filled tracer is dropped with it. *)

From Stdlib Require Import ZArith String Ascii List Lia Bool.
From stdpp Require Import base option list strings.

Local Open Scope string_scope.
Local Open Scope list_scope.

(** ** Exceptions *)

Inductive py_exn : Set := ValueError | IndexError | KeyError.

Inductive result (A : Type) : Type :=
| Ok (a : A)
| Raise (e : py_exn).
Arguments Ok {A} a.
Arguments Raise {A} e.

#[global] Instance result_ret : MRet result := fun A a => Ok a.
#[global] Instance result_bind : MBind result := fun A B f m =>
  match m with
  | Ok a => f a
  | Raise e => Raise e
  end.

Definition is_Ok {A} (r : result A) : bool :=
  match r with Ok _ => true | Raise _ => false end.

(** [l[i]] for a non-negative subscript. *)
Definition getitem {A} (l : list A) (i : nat) : result A :=
  match l !! i with
  | Some x => Ok x
  | None => Raise IndexError
  end.

(** ** Python strings *)

Module Py.

Definition chars (s : string) : list ascii := list_ascii_of_string s.
Definition str (l : list ascii) : string := string_of_list_ascii l.

(** [ord(c)] *)
Definition ord (c : ascii) : Z := Z.of_nat (nat_of_ascii c).

(** [len(s)] *)
Definition len (s : string) : nat := length (chars s).

(** [c.isspace()] on the code points below 256: TAB..CR, FS..US, space,
    NEL and NBSP. *)
Definition isspace (c : ascii) : bool :=
  let n := nat_of_ascii c in
  (((9 <=? n) && (n <=? 13)) || ((28 <=? n) && (n <=? 32))
   || (n =? 133) || (n =? 160))%nat.

(** The decimal digits [0]..[9], the only characters [int] accepts as
    digits below code point 256. *)
Definition isdecimal (c : ascii) : bool :=
  let n := nat_of_ascii c in ((48 <=? n) && (n <=? 57))%nat.

(** [c.isnumeric()] on the code points below 256: the decimal digits, the
    superscripts 2, 3, 1 and the fractions 1/4, 1/2, 3/4. *)
Definition isnumeric_char (c : ascii) : bool :=
  let n := nat_of_ascii c in
  (isdecimal c || (n =? 178) || (n =? 179) || (n =? 185)
   || (n =? 188) || (n =? 189) || (n =? 190))%nat.

(** [s.isnumeric()]: every character numeric and at least one character. *)
Definition isnumeric (s : string) : bool :=
  match chars s with
  | [] => false
  | l => forallb isnumeric_char l
  end.

(** Dropping the leading, and the trailing, characters that satisfy
    [sp]. *)
Fixpoint lstrip_by (sp : ascii -> bool) (l : list ascii) : list ascii :=
  match l with
  | [] => []
  | c :: l' => if sp c then lstrip_by sp l' else l
  end.

Definition rstrip_by (sp : ascii -> bool) (l : list ascii) : list ascii :=
  rev (lstrip_by sp (rev l)).

Definition lstrip : list ascii -> list ascii := lstrip_by isspace.
Definition rstrip : list ascii -> list ascii := rstrip_by isspace.

(** [s.strip()] *)
Definition strip (s : string) : string := str (rstrip (lstrip (chars s))).

(** One right-to-left pass of [s.split()]: the word that is open at the
    head of the text and the words closed after it. *)
Fixpoint words_aux (l : list ascii) : list ascii * list (list ascii) :=
  match l with
  | [] => ([], [])
  | c :: l' =>
      let '(w, ws) := words_aux l' in
      if isspace c
      then ([], match w with [] => ws | _ => w :: ws end)
      else (c :: w, ws)
  end.

Definition words (l : list ascii) : list (list ascii) :=
  let '(w, ws) := words_aux l in
  match w with [] => ws | _ => w :: ws end.

(** [s.split()]: the maximal runs of characters that are not whitespace. *)
Definition split (s : string) : list string := map str (words (chars s)).

(** [s[0]] and [s[-1]] as options; the parsers only apply them to tokens
    of [split], which are never empty (lemma [split_nonempty]). *)
Definition first (s : string) : option ascii := head (chars s).
Definition final (s : string) : option ascii := last (chars s).

(** [s[:n]], [s[n:]], [s[a:b]] for 0 <= a <= b, [s[:-1]] and [s[1:-1]]. *)
Definition upto (n : nat) (s : string) : string := str (take n (chars s)).
Definition from (n : nat) (s : string) : string := str (drop n (chars s)).
Definition slice (a b : nat) (s : string) : string :=
  str (take (b - a) (drop a (chars s))).
Definition but_last (s : string) : string := str (removelast (chars s)).
Definition inner (s : string) : string :=
  str (removelast (drop 1 (chars s))).

Definition digit_val (c : ascii) : option Z :=
  if isdecimal c then Some (ord c - 48)%Z else None.

(** The digits of an integer literal after its first digit: digits with
    single underscores between them. [us] tells that the previous
    character was an underscore. *)
Fixpoint int_digits (acc : Z) (us : bool) (l : list ascii) : option Z :=
  match l with
  | [] => if us then None else Some acc
  | c :: l' =>
      if Ascii.eqb c "_"
      then (if us then None else int_digits acc true l')
      else match digit_val c with
           | Some d => int_digits (10 * acc + d)%Z false l'
           | None => None
           end
  end.

Definition int_unsigned (l : list ascii) : option Z :=
  match l with
  | [] => None
  | c :: l' =>
      match digit_val c with
      | Some d => int_digits d false l'
      | None => None
      end
  end.

Definition int_signed (l : list ascii) : option Z :=
  match l with
  | c :: l' =>
      if Ascii.eqb c "+" then int_unsigned l'
      else if Ascii.eqb c "-" then Z.opp <$> int_unsigned l'
      else int_unsigned l
  | [] => None
  end.

(** The whitespace that [int] drops around a literal: that of [isspace]
    without the separators FS..US. *)
Definition int_space (c : ascii) : bool :=
  let n := nat_of_ascii c in
  (((9 <=? n) && (n <=? 13)) || (n =? 32) || (n =? 133) || (n =? 160))%nat.

(** [int(s)]: surrounding whitespace dropped, an optional sign, then a
    base-10 literal; [ValueError] otherwise. *)
Definition int (s : string) : result Z :=
  match int_signed (rstrip_by int_space (lstrip_by int_space (chars s))) with
  | Some z => Ok z
  | None => Raise ValueError
  end.

End Py.

(** ** Python lists *)

(** [while len(l) <= i: l.append(x)].  The loop runs [i + 1 - len(l)]
    times when that is positive and not at all otherwise; [pad] gives it
    exactly that many rounds, and [pad_length] shows that the test fails
    when they are used up. *)
Fixpoint pad_loop {A} (fuel : nat) (l : list A) (i : Z) (x : A) : list A :=
  match fuel with
  | O => l
  | S fuel' =>
      if (Z.of_nat (length l) <=? i)%Z then pad_loop fuel' (l ++ [x]) i x else l
  end.

Definition pad {A} (l : list A) (i : Z) (x : A) : list A :=
  pad_loop (Z.to_nat (i + 1 - Z.of_nat (length l))) l i x.

(** [l[i] = x] for any integer subscript: a negative one counts from the
    end, and one outside [-len(l) .. len(l) - 1] raises [IndexError]. *)
Definition setitem {A} (l : list A) (i : Z) (x : A) : result (list A) :=
  let n := Z.of_nat (length l) in
  if ((0 <=? i) && (i <? n))%Z then Ok (<[Z.to_nat i := x]> l)
  else if ((- n <=? i) && (i <? 0))%Z then Ok (<[Z.to_nat (n + i) := x]> l)
  else Raise IndexError.

(** A [for] loop whose body threads a state and may raise. *)
Fixpoint foldM {A S} (f : S -> A -> result S) (s : S) (l : list A) : result S :=
  match l with
  | [] => Ok s
  | x :: l' => s' ← f s x; foldM f s' l'
  end.

(** ** Python dictionaries with integer values *)

Module Dict.

Definition t : Type := list (string * Z).

(** [d[k]], [None] standing for [k not in d]. *)
Fixpoint get (d : t) (k : string) : option Z :=
  match d with
  | [] => None
  | (k', v) :: d' => if String.eqb k' k then Some v else get d' k
  end.

(** [d[k] = v]: an existing key keeps its place, a new one goes last. *)
Fixpoint set (d : t) (k : string) (v : Z) : t :=
  match d with
  | [] => [(k, v)]
  | (k', v') :: d' =>
      if String.eqb k' k then (k', v) :: d' else (k', v') :: set d' k v
  end.

(** [d.keys()] *)
Definition keys (d : t) : list string := map fst d.

End Dict.

(** ** The canonical state model *)

(** [class OrgState] *)
Module OrgState.
Record t : Type := new { idx : nat; heads : Dict.t; regs : list Z }.
End OrgState.

(** [self.org_states]: per organism index, the snapshots in the order in
    which they were saved. *)
Abbreviation trace_store := (list (list OrgState.t)).

(** The variables of a parse: [self.org_states] and the locals [org_idx]
    ([None] until the first boundary line), [heads] and [regs]. *)
Record tracer : Type := Tracer {
  org_states : trace_store;
  org_idx : option nat;
  heads : Dict.t;
  regs : list Z
}.

Definition tracer_init : tracer :=
  {| org_states := []; org_idx := None; heads := []; regs := [] |}.

(** The three lines that both parsers repeat under
    [if org_idx is not None], at a boundary line and at the end of the
    input:
<<
    while len(self.org_states) <= org_idx:
        self.org_states.append([])
    self.org_states[org_idx].append(OrgState(org_idx, heads, regs))
>>
    [heads] and [regs] are rebound to fresh objects right after each save
    at a boundary, and nothing follows the save at the end of the input,
    so a saved snapshot is never mutated afterwards. *)
Definition save (states : trace_store) (i : nat) (heads : Dict.t) (regs : list Z)
  : result trace_store :=
  let states := pad states (Z.of_nat i) [] in
  states_i ← getitem states i;
  Ok (<[i := states_i ++ [OrgState.new i heads regs]]> states).

Definition save_current (st : tracer) : result trace_store :=
  match org_idx st with
  | Some i => save (org_states st) i (heads st) (regs st)
  | None => Ok (org_states st)
  end.

(** ** [parse_mabe_trace] *)

(** [tok[0] == '[' and tok[-1] == ']' and tok[1:-1].isnumeric()] *)
Definition is_bracketed_number (tok : string) : bool :=
  bool_decide (Py.first tok = Some "["%char)
  && bool_decide (Py.final tok = Some "]"%char)
  && Py.isnumeric (Py.inner tok).

(** [tok[-1] == ':' and tok[0] != '('] *)
Definition is_head_name (tok : string) : bool :=
  bool_decide (Py.final tok = Some ":"%char)
  && negb (bool_decide (Py.first tok = Some "("%char)).

(** The [while True] loop of a heads line, on [rest = line_parts[idx:]].
    The source subscripts [line_parts[idx]] before it tests
    [idx < len(line_parts) - 1], so an empty [rest] is an [IndexError];
    [rest'] is empty exactly when [idx = len(line_parts) - 1]. *)
Fixpoint mabe_heads (rest : list string) (heads : Dict.t) : result Dict.t :=
  match rest with
  | [] => Raise IndexError
  | tok :: rest' =>
      if is_head_name tok && negb (bool_decide (rest' = []))
      then
        match rest' with
        | val :: rest'' =>
            v ← Py.int val;
            mabe_heads rest'' (Dict.set heads (Py.but_last tok) v)
        | [] => Raise IndexError
        end
      else Ok heads
  end.

(** The body of [for line in fp] of [parse_mabe_trace]. *)
Definition mabe_line (st : tracer) (line : string) : result tracer :=
  let line := Py.strip line in
  if (Py.len line =? 0)%nat then Ok st
  else
    let line_parts := Py.split line in
    part0 ← getitem line_parts 0;
    if is_bracketed_number part0 then
      if (length line_parts =? 1)%nat then
        states ← save_current st;
        i ← Py.int (Py.inner part0);
        Ok {| org_states := states; org_idx := Some (Z.to_nat i);
              heads := []; regs := [] |}
      else
        reg_idx ← Py.int (Py.inner part0);
        let regs' := pad (regs st) reg_idx 0%Z in
        part1 ← getitem line_parts 1;
        v ← Py.int part1;
        regs'' ← setitem regs' reg_idx v;
        Ok {| org_states := org_states st; org_idx := org_idx st;
              heads := heads st; regs := regs'' |}
    else if String.eqb part0 "IP:" then
      heads' ← mabe_heads line_parts (heads st);
      Ok {| org_states := org_states st; org_idx := org_idx st;
            heads := heads'; regs := regs st |}
    else Ok st.

(** The state after the lines read so far. *)
Definition mabe_lines (lines : list string) : result tracer :=
  foldM mabe_line tracer_init lines.

(** [parse_mabe_trace], from the lines of the file to [self.org_states]. *)
Definition parse_mabe_trace (lines : list string) : result trace_store :=
  st ← mabe_lines lines; save_current st.

(** ** [parse_avida_trace] *)

(** The body of [for line_part in line_parts] of a CPU line. *)
Definition avida_cpu_part (hr : Dict.t * list Z) (line_part : string)
  : result (Dict.t * list Z) :=
  let '(heads, regs) := hr in
  if (3 <? Py.len line_part)%nat && String.eqb (Py.upto 3 line_part) "IP:" then
    v ← Py.int (Py.from 3 line_part);
    Ok (Dict.set heads "IP" v, regs)
  else if (3 <? Py.len line_part)%nat && String.eqb (Py.slice 1 3 line_part) "X:" then
    match Py.first line_part with
    | None => Raise IndexError
    | Some reg_char =>
        let reg_idx := (Py.ord reg_char - Py.ord "A")%Z in
        reg_val ← Py.int (Py.from 3 line_part);
        regs' ← setitem (pad regs reg_idx 0%Z) reg_idx reg_val;
        Ok (heads, regs')
    end
  else Ok hr.

(** The body of [for line_part in line_parts] of a heads line. *)
Definition avida_head_part (heads : Dict.t) (line_part : string) : result Dict.t :=
  if (8 <=? Py.len line_part)%nat then
    if String.eqb (Py.upto 6 line_part) "R-Head" then
      v ← Py.int (Py.from 7 line_part); Ok (Dict.set heads "RH" v)
    else if String.eqb (Py.upto 6 line_part) "W-Head" then
      v ← Py.int (Py.from 7 line_part); Ok (Dict.set heads "WH" v)
    else if String.eqb (Py.upto 6 line_part) "F-Head" then
      v ← Py.int (Py.from 7 line_part); Ok (Dict.set heads "FH" v)
    else Ok heads
  else Ok heads.

(** [len(line_parts) == 1 and line_parts[0] == 'U:-1'] *)
Definition is_new_org (line_parts : list string) : bool :=
  bool_decide (line_parts = ["U:-1"]).

(** The body of [for line in fp] of [parse_avida_trace]. *)
Definition avida_line (st : tracer) (line : string) : result tracer :=
  let line := Py.strip line in
  if (Py.len line =? 0)%nat then Ok st
  else
    let line_parts := Py.split line in
    st ← (if is_new_org line_parts then
            states ← save_current st;
            Ok {| org_states := states; org_idx := Some 0%nat;
                  heads := []; regs := [] |}
          else Ok st);
    part0 ← getitem line_parts 0;
    if String.eqb part0 "CPU" then
      hr ← foldM avida_cpu_part (heads st, regs st) line_parts;
      Ok {| org_states := org_states st; org_idx := org_idx st;
            heads := hr.1; regs := hr.2 |}
    else if String.eqb (Py.upto 7 part0) "R-Head:" then
      heads' ← foldM avida_head_part (heads st) line_parts;
      Ok {| org_states := org_states st; org_idx := org_idx st;
            heads := heads'; regs := regs st |}
    else Ok st.

Definition avida_lines (lines : list string) : result tracer :=
  foldM avida_line tracer_init lines.

(** [parse_avida_trace], from the lines of the file to [self.org_states]. *)
Definition parse_avida_trace (lines : list string) : result trace_store :=
  st ← avida_lines lines; save_current st.

(** ** [compare_org_trace] *)

(** The line the comparator prints before it returns. *)
Inductive report : Type :=
| ReachedEnd (step : nat)
| RegMismatch (reg_idx step : nat)
| HeadMissing (head_name : string) (step : nat)
| HeadMismatch (head_name : string) (step : nat).

(** What a call that does not raise leaves behind: the printed line, if
    any, and the value handed back to the caller, [None] when the function
    falls off its end. *)
Record outcome : Type := Outcome {
  printed : option report;
  returned : option nat
}.

(** One round of a loop body: go on with the next round, leave the
    function through [return], or raise. *)
Inductive flow (R : Type) : Type :=
| Next
| Return (r : R)
| Throw (e : py_exn).
Arguments Next {R}.
Arguments Return {R} r.
Arguments Throw {R} e.

(** [for x in l: body] *)
Fixpoint for_each {A R} (body : A -> flow R) (l : list A) : flow R :=
  match l with
  | [] => Next
  | x :: l' =>
      match body x with
      | Next => for_each body l'
      | Return r => Return r
      | Throw e => Throw e
      end
  end.

(** A statement followed by the rest of the block. *)
Definition and_then {R} (c : flow R) (rest : flow R) : flow R :=
  match c with
  | Next => rest
  | Return r => Return r
  | Throw e => Throw e
  end.

(** An expression that may raise, followed by the block that uses it. *)
Definition eval {A R} (e : result A) (rest : A -> flow R) : flow R :=
  match e with
  | Ok a => rest a
  | Raise x => Throw x
  end.

(** [print(...); return step] *)
Definition stop (msg : report) (step : nat) : flow (report * nat) :=
  Return (msg, step).

(** The body of [for reg_idx in range(6)]. *)
Definition compare_reg (self_state other_state : OrgState.t) (step reg_idx : nat)
  : flow (report * nat) :=
  eval (getitem (OrgState.regs self_state) reg_idx) (fun a =>
  eval (getitem (OrgState.regs other_state) reg_idx) (fun b =>
  if negb (a =? b)%Z then stop (RegMismatch reg_idx step) step else Next)).

(** [d[k]] on a dictionary, for a key taken from [d.keys()]. *)
Definition dict_item (d : Dict.t) (k : string) : result Z :=
  match Dict.get d k with
  | Some v => Ok v
  | None => Raise KeyError
  end.

(** The body of [for head_name in self_state.heads.keys()]. *)
Definition compare_head (self_state other_state : OrgState.t) (step : nat)
    (head_name : string) : flow (report * nat) :=
  match Dict.get (OrgState.heads other_state) head_name with
  | None => stop (HeadMissing head_name step) step
  | Some b =>
      eval (dict_item (OrgState.heads self_state) head_name) (fun a =>
      if negb (a =? b)%Z then stop (HeadMismatch head_name step) step else Next)
  end.

(** The two inner loops, on the snapshots of one step. *)
Definition compare_states (self_state other_state : OrgState.t) (step : nat)
  : flow (report * nat) :=
  and_then
    (for_each (compare_reg self_state other_state step) (seq 0 6))
    (for_each (compare_head self_state other_state step)
       (Dict.keys (OrgState.heads self_state))).

(** The body of [for step in range(len(self.org_states[org_idx]))]. *)
Definition compare_step (self other : trace_store) (org_idx step : nat)
  : flow (report * nat) :=
  eval (getitem other org_idx) (fun other_seq =>
  if (length other_seq <=? step)%nat then stop (ReachedEnd step) step
  else
    eval (self_seq ← getitem self org_idx; getitem self_seq step) (fun self_state =>
    eval (getitem other_seq step) (fun other_state =>
    compare_states self_state other_state step))).

(** [self.compare_org_trace(other, org_idx)], on the two stores. *)
Definition compare_org_trace (self other : trace_store) (org_idx : nat)
  : result outcome :=
  self_seq ← getitem self org_idx;
  match for_each (compare_step self other org_idx) (seq 0 (length self_seq)) with
  | Next => Ok {| printed := None; returned := None |}
  | Return (msg, step) => Ok {| printed := Some msg; returned := Some step |}
  | Throw e => Raise e
  end.

(** ** Vocabulary of the properties *)

(** The step a printed line names. *)
Definition report_step (r : report) : nat :=
  match r with
  | ReachedEnd step | RegMismatch _ step
  | HeadMissing _ step | HeadMismatch _ step => step
  end.

(** The caller can tell from the returned value alone which line was
    printed, that is the step together with the category of the
    divergence. *)
Definition report_recoverable : Prop :=
  exists recover : option nat -> option report,
    forall self other org_idx out,
      compare_org_trace self other org_idx = Ok out ->
      recover (returned out) = printed out.

(** Both snapshots carry the registers 0..5, with equal values. *)
Definition regs_agree (a b : OrgState.t) : Prop :=
  forall r, r < 6 ->
    exists v, OrgState.regs a !! r = Some v /\ OrgState.regs b !! r = Some v.

(** Every key of [ks] is a head of both snapshots, with equal values. *)
Definition heads_agree (a b : OrgState.t) (ks : list string) : Prop :=
  forall k, k ∈ ks ->
    exists v, Dict.get (OrgState.heads a) k = Some v
              /\ Dict.get (OrgState.heads b) k = Some v.

(** The comparator finds nothing to report between [a] and [b]. *)
Definition snapshots_agree (a b : OrgState.t) : Prop :=
  regs_agree a b /\ heads_agree a b (Dict.keys (OrgState.heads a)).

(** The two register sequences are equal wherever both are defined among
    the indices 0..5. *)
Definition regs_agree_where_defined (a b : OrgState.t) : Prop :=
  forall r x y, r < 6 ->
    OrgState.regs a !! r = Some x -> OrgState.regs b !! r = Some y -> x = y.

(** A heads line of Format B as name/value token pairs. *)
Definition head_tokens (pairs : list (string * string)) : list string :=
  flat_map (fun p => [p.1; p.2]) pairs.

Definition int_value (s : string) : Z :=
  match Py.int s with Ok z => z | Raise _ => 0%Z end.

Definition set_heads (heads : Dict.t) (pairs : list (string * string)) : Dict.t :=
  fold_left (fun h p => Dict.set h (Py.but_last p.1) (int_value p.2)) pairs heads.

Definition head_pair (p : string * string) : Prop :=
  is_head_name p.1 = true /\ is_Ok (Py.int p.2) = true.

(** A Format-B line whose first token is neither [[digits]] nor [IP:]
    (a blank line has no first token). *)
Definition mabe_unmatched (line : string) : bool :=
  match Py.split (Py.strip line) with
  | [] => true
  | part0 :: _ => negb (is_bracketed_number part0) && negb (String.eqb part0 "IP:")
  end.

(** A Format-A line that is not the boundary marker and whose first token
    is neither [CPU] nor prefixed by [R-Head:]. *)
Definition avida_unmatched (line : string) : bool :=
  let line_parts := Py.split (Py.strip line) in
  negb (is_new_org line_parts)
  && match line_parts with
     | [] => true
     | part0 :: _ =>
         negb (String.eqb part0 "CPU")
         && negb (String.eqb (Py.upto 7 part0) "R-Head:")
     end.

(** The token forms of a CPU line and of a heads line of Format A. *)
Definition cpu_part_matches (line_part : string) : bool :=
  (3 <? Py.len line_part)%nat
  && (String.eqb (Py.upto 3 line_part) "IP:"
      || String.eqb (Py.slice 1 3 line_part) "X:").

Definition head_part_matches (line_part : string) : bool :=
  (8 <=? Py.len line_part)%nat
  && (String.eqb (Py.upto 6 line_part) "R-Head"
      || String.eqb (Py.upto 6 line_part) "W-Head"
      || String.eqb (Py.upto 6 line_part) "F-Head").

(** The start-of-update lines of a Format-A input. *)
Definition new_org_lines (lines : list string) : list string :=
  List.filter (fun line => is_new_org (Py.split (Py.strip line))) lines.

(** Index [i] has an entry in the store. *)
Definition present (states : trace_store) (i : nat) : Prop :=
  is_Some (states !! i).

(** Inputs of the worked examples. *)
Definition six_zeros : list Z := [0; 0; 0; 0; 0; 0]%Z.

Definition avida_example : list string :=
  ["U:-1"; "CPU ... IP:3 AX:10 BX:0"; "R-Head:5 W-Head:6 F-Head:0"].

Definition avida_example_state : OrgState.t :=
  OrgState.new 0 [("IP", 3%Z); ("RH", 5%Z); ("WH", 6%Z); ("FH", 0%Z)] [10%Z; 0%Z].

Definition mabe_example_state : OrgState.t :=
  OrgState.new 0 [("IP", 2%Z); ("RH", 1%Z)] [7%Z].

(** What holds of a Format-A parse after [k] start-of-update lines: no
    organism before the first of them, organism 0 afterwards, with one
    snapshot saved for each of them but the last. *)
Definition avida_inv (k : nat) (st : tracer) : Prop :=
  match org_idx st with
  | None => k = 0 /\ org_states st = []
  | Some i =>
      i = 0 /\
      ((k = 1 /\ org_states st = [])
       \/ exists seq, org_states st = [seq] /\ k = S (length seq))
  end.

(** Stores of the worked examples of the comparator. *)
Definition six_store : trace_store := [[OrgState.new 0 [("IP", 3%Z)] six_zeros]].

Definition short_store : trace_store := [[avida_example_state]].

(** * The rest of [trace_ref.py]: the playback cursor and its text *)

From Stdlib Require DecimalString.

(** [l[i]] for any integer subscript: a negative one counts from the end,
    and one outside [-len(l) .. len(l) - 1] raises [IndexError]. *)
Definition subscript {A} (l : list A) (i : Z) : result A :=
  let n := Z.of_nat (length l) in
  if ((0 <=? i) && (i <? n))%Z then getitem l (Z.to_nat i)
  else if ((- n <=? i) && (i <? 0))%Z then getitem l (Z.to_nat (n + i))
  else Raise IndexError.

(** [str(n)] for an integer. *)
Definition py_str (n : Z) : string :=
  DecimalString.NilZero.string_of_int (Z.to_int n).

(** The body of [set_genome]'s loop over the lines of the genome file:
    the stripped lines that are not empty, in order. *)
Definition genome_inst_list (lines : list string) : list string :=
  fold_left
    (fun inst_list line =>
       let line := Py.strip line in
       if negb (String.eqb line "") then inst_list ++ [line] else inst_list)
    lines [].

Module Viewer.

(** The keys that [update] looks at; [K_other] is any other key. *)
Inductive key : Set :=
| K_ESCAPE | K_q | K_RIGHT | K_d | K_LEFT | K_a
| K_UP | K_w | K_DOWN | K_s | K_SPACE | K_other.

(** An event of [pygame.event.get()], by its [type] and [key]. *)
Inductive event : Set :=
| QUIT
| KEYDOWN (k : key)
| OTHER.

(** The attributes of [AvidaTracer] that [update] and the two text
    renderers read and write.  [__init__] sets [org_idx] and [org_step]
    to 0, [run] sets [is_running] and [is_paused] to [True], and a parser
    sets [org_states]. *)
Record t : Type := new {
  org_states : trace_store;
  org_idx : Z;
  org_step : Z;
  is_running : bool;
  is_paused : bool
}.

Definition start (states : trace_store) : t :=
  {| org_states := states; org_idx := 0; org_step := 0;
     is_running := true; is_paused := true |}.

Definition set_step (v : t) (step : Z) : t :=
  {| org_states := org_states v; org_idx := org_idx v; org_step := step;
     is_running := is_running v; is_paused := is_paused v |}.

Definition set_org (v : t) (idx : Z) : t :=
  {| org_states := org_states v; org_idx := idx; org_step := 0;
     is_running := is_running v; is_paused := is_paused v |}.

Definition set_running (v : t) (b : bool) : t :=
  {| org_states := org_states v; org_idx := org_idx v; org_step := org_step v;
     is_running := b; is_paused := is_paused v |}.

Definition set_paused (v : t) (b : bool) : t :=
  {| org_states := org_states v; org_idx := org_idx v; org_step := org_step v;
     is_running := is_running v; is_paused := b |}.

(** [len(self.org_states[self.org_idx])] *)
Definition steps (v : t) : result Z :=
  seq ← subscript (org_states v) (org_idx v);
  Ok (Z.of_nat (length seq)).

(** [self.org_step += 1], back to 0 past the last step. *)
Definition step_forward (v : t) : result t :=
  let step := (org_step v + 1)%Z in
  n ← steps v;
  Ok (set_step v (if (n <=? step)%Z then 0%Z else step)).

(** [self.org_step -= 1], to the last step below 0. *)
Definition step_back (v : t) : result t :=
  let step := (org_step v - 1)%Z in
  if (step <? 0)%Z then n ← steps v; Ok (set_step v (n - 1)%Z)
  else Ok (set_step v step).

(** [self.org_idx -= 1], to the last organism below 0; step 0. *)
Definition org_back (v : t) : t :=
  let idx := (org_idx v - 1)%Z in
  set_org v (if (idx <? 0)%Z then (Z.of_nat (length (org_states v)) - 1)%Z else idx).

(** [self.org_idx += 1], back to 0 past the last organism; step 0. *)
Definition org_forward (v : t) : t :=
  let idx := (org_idx v + 1)%Z in
  set_org v (if (Z.of_nat (length (org_states v)) <=? idx)%Z then 0%Z else idx).

(** The body of [for evt in pygame.event.get()]. *)
Definition handle (v : t) (evt : event) : result t :=
  match evt with
  | QUIT => Ok (set_running v false)
  | KEYDOWN k =>
      match k with
      | K_ESCAPE | K_q => Ok (set_running v false)
      | K_RIGHT | K_d => step_forward v
      | K_LEFT | K_a => step_back v
      | K_UP | K_w => Ok (org_back v)
      | K_DOWN | K_s => Ok (org_forward v)
      | K_SPACE => Ok (set_paused v (negb (is_paused v)))
      | K_other => Ok v
      end
  | OTHER => Ok v
  end.

(** [update], on the events of one frame. *)
Definition update (v : t) (events : list event) : result t :=
  v ← foldM handle v events;
  if negb (is_paused v) then step_forward v else Ok v.

(** [n] frames without events. *)
Fixpoint idle (n : nat) (v : t) : result t :=
  match n with
  | O => Ok v
  | S n' => v' ← update v []; idle n' v'
  end.

(** [self.org_states[self.org_idx][self.org_step]] *)
Definition current (v : t) : result OrgState.t :=
  seq ← subscript (org_states v) (org_idx v);
  subscript seq (org_step v).

(** A line of text drawn at a position: [font.render] followed by
    [screen.blit]. *)
Definition blit : Type := string * (Z * Z).

(** [render_heads]: the lines drawn and the returned position. *)
Definition render_heads (v : t) (x y : Z) : result (list blit * (Z * Z)) :=
  state ← current v;
  r ← foldM
        (fun (acc : list blit * Z) head =>
           value ← dict_item (OrgState.heads state) head;
           Ok (acc.1 ++ [(head ++ ": " ++ py_str value, (x, acc.2))%string],
               (acc.2 + 30)%Z))
        ([], y) ["IP"; "RH"; "WH"; "FH"];
  Ok (r.1, (x, r.2)).

(** [render_registers]: the lines drawn and the returned position. *)
Definition render_registers (v : t) (x y : Z) : result (list blit * (Z * Z)) :=
  state ← current v;
  r ← foldM
        (fun (acc : list blit * Z) idx =>
           value ← getitem (OrgState.regs state) idx;
           Ok (acc.1 ++ [("Reg " ++ py_str (Z.of_nat idx) ++ ": " ++ py_str value,
                           (x, acc.2))%string],
               (acc.2 + 30)%Z))
        ([], y) (seq 0 (length (OrgState.regs state)));
  Ok (r.1, (x, r.2)).

End Viewer.

(** * [animate.py]: the agent on the patch map *)

Module Animate.

(** [class Agent] *)
Record Agent : Type := mkAgent {
  row_idx : Z;
  col_idx : Z;
  facing : Z;
  score : Z
}.

(** [Agent(x, y, facing)] *)
Definition Agent_init (x y facing : Z) : Agent :=
  {| row_idx := y; col_idx := x; facing := facing; score := 0 |}.

Definition shift (a : Agent) (drow dcol : Z) : Agent :=
  {| row_idx := row_idx a + drow; col_idx := col_idx a + dcol;
     facing := facing a; score := score a |}%Z.

(** [Agent.move]: one tile in the direction faced, 0 = northwest, then
    clockwise; any other [facing] moves nothing. *)
Definition Agent_move (a : Agent) : Agent :=
  if (facing a =? 0)%Z then shift a (-1) (-1)
  else if (facing a =? 1)%Z then shift a (-1) 0
  else if (facing a =? 2)%Z then shift a (-1) 1
  else if (facing a =? 3)%Z then shift a 0 1
  else if (facing a =? 4)%Z then shift a 1 1
  else if (facing a =? 5)%Z then shift a 1 0
  else if (facing a =? 6)%Z then shift a 1 (-1)
  else if (facing a =? 7)%Z then shift a 0 (-1)
  else a.

Definition set_facing (a : Agent) (f : Z) : Agent :=
  {| row_idx := row_idx a; col_idx := col_idx a; facing := f; score := score a |}.

(** [Agent.rotate_right]: [facing += 1], then [facing % 8]; Python's [%]
    with a positive modulus is [Z.modulo]. *)
Definition Agent_rotate_right (a : Agent) : Agent :=
  set_facing a ((facing a + 1) mod 8)%Z.

(** [Agent.rotate_left]: [facing -= 1], then [+ 8] below 0. *)
Definition Agent_rotate_left (a : Agent) : Agent :=
  let f := (facing a - 1)%Z in
  set_facing a (if (f <? 0)%Z then (f + 8)%Z else f).

(** The attributes of [PatchHarvestAnimator] apart from the constant
    [color_map]. *)
Record t : Type := new {
  map_data : list (list ascii);
  agent : Agent
}.

(** [load_map], from the lines of the map file: one row of tiles per
    line, the characters of the stripped line. *)
Definition load_map (lines : list string) : list (list ascii) :=
  map (fun line => Py.chars (Py.strip line)) lines.

(** [setup_color_map], as the lookup [self.color_map[c]]. *)
Definition color_map (c : ascii) : result (Z * Z * Z) :=
  if Ascii.eqb c "o" then Ok (100, 100, 100)%Z
  else if Ascii.eqb c "E" then Ok (200, 200, 0)%Z
  else if Ascii.eqb c "N" then Ok (0, 150, 200)%Z
  else if Ascii.eqb c "." then Ok (200, 200, 200)%Z
  else Raise KeyError.

(** [get_map_width]: [len(self.map_data[0])] *)
Definition get_map_width (a : t) : result Z :=
  row ← getitem (map_data a) 0;
  Ok (Z.of_nat (length row)).

(** [get_map_height]: [len(self.map_data)] *)
Definition get_map_height (a : t) : Z := Z.of_nat (length (map_data a)).

(** [get_color] *)
Definition get_color (a : t) (row_idx col_idx : Z) : result (Z * Z * Z) :=
  row ← subscript (map_data a) row_idx;
  tile ← subscript row col_idx;
  color_map tile.

(** [tile in ('N', 'E')] *)
Definition is_food (tile : ascii) : bool :=
  Ascii.eqb tile "N" || Ascii.eqb tile "E".

(** [consume]: the animator afterwards and the scores printed. *)
Definition consume (a : t) : result (t * list Z) :=
  let ag := agent a in
  row ← subscript (map_data a) (row_idx ag);
  tile ← subscript row (col_idx ag);
  if is_food tile then
    let score' := (score ag + 1)%Z in
    row ← subscript (map_data a) (row_idx ag);
    row' ← setitem row (col_idx ag) "."%char;
    map' ← setitem (map_data a) (row_idx ag) row';
    Ok ({| map_data := map';
           agent := {| row_idx := row_idx ag; col_idx := col_idx ag;
                       facing := facing ag; score := score' |} |},
        [score'])
  else Ok (a, []).

(** [PatchHarvestAnimator.move] *)
Definition move (a : t) : result (t * list Z) :=
  let ag := Agent_move (agent a) in
  let row := Z.max (Z.min (row_idx ag) (get_map_height a - 1)) 0 in
  width ← get_map_width a;
  let col := Z.max (Z.min (col_idx ag) (width - 1)) 0 in
  consume {| map_data := map_data a;
             agent := {| row_idx := row; col_idx := col;
                         facing := facing ag; score := score ag |} |}.

(** [PatchHarvestAnimator.rotate_right] and [rotate_left] *)
Definition rotate_right (a : t) : t :=
  {| map_data := map_data a; agent := Agent_rotate_right (agent a) |}.

Definition rotate_left (a : t) : t :=
  {| map_data := map_data a; agent := Agent_rotate_left (agent a) |}.

(** [PatchHarvestAnimator(map_filename)], from the lines of the map
    file: the agent starts at column 40, row 25, facing east, and
    consumes the tile it stands on. *)
Definition init (lines : list string) : result (t * list Z) :=
  consume {| map_data := load_map lines; agent := Agent_init 40 25 3 |}.

(** The body of [for line in fp] of [load_movement_file]. *)
Definition movement_step (output_str line : string) : string :=
  let line := Py.strip line in
  if (Py.len line =? 0)%nat then output_str
  else
    let line_parts := Py.split line in
    if (length line_parts <? 2)%nat then output_str
    else
      match line_parts !! 1 with
      | Some part1 =>
          if String.eqb part1 "move" then (output_str ++ "M")%string
          else if String.eqb part1 "rot_right" then (output_str ++ "R")%string
          else if String.eqb part1 "rot_left" then (output_str ++ "L")%string
          else output_str
      | None => output_str
      end.

(** [load_movement_file], from the lines of the file. *)
Definition load_movement_file (lines : list string) : string :=
  fold_left movement_step lines "".

(** [process_move(idx)] for a movement string that was loaded, on the
    global [animator]. *)
Definition process_move (movement_str : string) (idx : nat) (a : t)
  : result (t * list Z) :=
  if (idx <? Py.len movement_str)%nat then
    match Py.chars movement_str !! idx with
    | Some c =>
        if Ascii.eqb c "R" then Ok (rotate_right a, [])
        else if Ascii.eqb c "L" then Ok (rotate_left a, [])
        else if Ascii.eqb c "M" then move a
        else Ok (a, [])
    | None => Raise IndexError
    end
  else Ok (a, []).

(** [n] rounds of [process_move(move_idx); move_idx += 1], as the main
    loop makes them, one for each press of the space bar or each frame
    while playing; the scores printed are collected in order. *)
Fixpoint play (movement_str : string) (move_idx n : nat) (a : t)
  : result (t * list Z) :=
  match n with
  | O => Ok (a, [])
  | S n' =>
      r ← process_move movement_str move_idx a;
      r' ← play movement_str (S move_idx) n' r.1;
      Ok (r'.1, r.2 ++ r'.2)
  end.

(** The tiles [N] and [E] left on the map. *)
Definition food_left (m : list (list ascii)) : nat :=
  sum_list_with (fun row => length (List.filter is_food row)) m.

(** A map of [h] rows of [w] tiles each. *)
Definition rectangular (h w : nat) (m : list (list ascii)) : Prop :=
  length m = h /\ Forall (fun row => length row = w) m.

(** The agent stands on a tile of the map. *)
Definition on_map (a : t) : Prop :=
  exists row,
    (0 <= row_idx (agent a))%Z /\ (0 <= col_idx (agent a))%Z
    /\ map_data a !! Z.to_nat (row_idx (agent a)) = Some row
    /\ (Z.to_nat (col_idx (agent a)) < length row)%nat.

End Animate.

(** ** Vocabulary of the further properties *)

(** The cursor of the viewer points at a recorded snapshot, the steps of
    its organism being [seq]. *)
Definition cursor_on (v : Viewer.t) (seq : list OrgState.t) : Prop :=
  (0 <= Viewer.org_idx v)%Z
  /\ Viewer.org_states v !! Z.to_nat (Viewer.org_idx v) = Some seq
  /\ (0 <= Viewer.org_step v < Z.of_nat (length seq))%Z.

Definition cursor_in_range (v : Viewer.t) : Prop := exists seq, cursor_on v seq.

(** Every organism of the store has at least one snapshot. *)
Definition all_recorded (states : trace_store) : Prop :=
  Forall (fun seq => seq <> []) states.

(** Every tile of the map has an entry in the colour map. *)
Definition known_tiles (m : list (list ascii)) : Prop :=
  Forall (Forall (fun c => is_Ok (Animate.color_map c) = true)) m.

(** The boundary lines of a Format-B input: one token, a number in
    brackets. *)
Definition mabe_boundary (line : string) : bool :=
  match Py.split (Py.strip line) with
  | [part0] => is_bracketed_number part0
  | _ => false
  end.

Definition mabe_boundary_lines (lines : list string) : list string :=
  List.filter mabe_boundary lines.

(** Every snapshot lies in the slot of the organism it names. *)
Definition slots_consistent (states : trace_store) : Prop :=
  forall i seq s, states !! i = Some seq -> s ∈ seq -> OrgState.idx s = i.

(** What holds of a Format-B parse after [k] boundary lines. *)
Definition mabe_inv (k : nat) (st : tracer) : Prop :=
  match org_idx st with
  | None => k = 0 /\ org_states st = []
  | Some _ => k = S (length (concat (org_states st)))
  end.

(** Half a turn: four times [rotate_right]. *)
Definition turn_around (a : Animate.Agent) : Animate.Agent :=
  Animate.Agent_rotate_right
    (Animate.Agent_rotate_right
       (Animate.Agent_rotate_right (Animate.Agent_rotate_right a))).

(** The agent of [move] before [consume]: moved and clamped. *)
Definition clamped (a : Animate.t) (w : Z) : Animate.t :=
  let ag := Animate.Agent_move (Animate.agent a) in
  {| Animate.map_data := Animate.map_data a;
     Animate.agent :=
       {| Animate.row_idx :=
            Z.max (Z.min (Animate.row_idx ag) (Animate.get_map_height a - 1)) 0;
          Animate.col_idx := Z.max (Z.min (Animate.col_idx ag) (w - 1)) 0;
          Animate.facing := Animate.facing ag;
          Animate.score := Animate.score ag |} |}.

(** The account of a run from [a] to [a'] that printed [out]: every
    point scored is a food tile gone from the map, and the lines printed
    are the scores in turn. *)
Definition harvest_log (a a' : Animate.t) (out : list Z) : Prop :=
  (Animate.score (Animate.agent a') + Z.of_nat (Animate.food_left (Animate.map_data a'))
   = Animate.score (Animate.agent a) + Z.of_nat (Animate.food_left (Animate.map_data a)))%Z
  /\ (Animate.score (Animate.agent a')
      = Animate.score (Animate.agent a) + Z.of_nat (length out))%Z
  /\ out = (fun k => (Animate.score (Animate.agent a) + Z.of_nat k)%Z)
             <$> seq 1 (length out).

(** The body of the loop of [render_registers], on the registers of
    the snapshot and the column [x]. *)
Definition reg_line (regs : list Z) (x : Z) (acc : list Viewer.blit * Z) (idx : nat)
  : result (list Viewer.blit * Z) :=
  value ← getitem regs idx;
  Ok (acc.1 ++ [("Reg " ++ py_str (Z.of_nat idx) ++ ": " ++ py_str value,
                  (x, acc.2))%string],
      (acc.2 + 30)%Z).

(** * Properties *)

(** ** Sanity checks of the string model *)

Example int_ex1 : Py.int "7" = Ok 7%Z. Proof. reflexivity. Qed.
Example int_ex2 : Py.int "-12" = Ok (-12)%Z. Proof. reflexivity. Qed.
Example int_ex3 : Py.int "1_000" = Ok 1000%Z. Proof. reflexivity. Qed.
Example int_ex4 : Py.int "foo" = Raise ValueError. Proof. reflexivity. Qed.
Example int_ex5 : Py.int "IP:" = Raise ValueError. Proof. reflexivity. Qed.
Example int_ex6 : Py.int "" = Raise ValueError. Proof. reflexivity. Qed.
Example int_ex7 : Py.int "1__0" = Raise ValueError. Proof. reflexivity. Qed.
Example int_ex8 : Py.int " +5 " = Ok 5%Z. Proof. reflexivity. Qed.
Example int_ex9 : Py.int "_1" = Raise ValueError /\ Py.int "1_" = Raise ValueError.
Proof. split; reflexivity. Qed.
Example split_ex1 :
  Py.split (Py.strip "  CPU ... IP:3  AX:10 BX:0 ") = ["CPU"; "..."; "IP:3"; "AX:10"; "BX:0"].
Proof. reflexivity. Qed.
Example split_ex2 : Py.split (Py.strip "   ") = []. Proof. reflexivity. Qed.
Example inner_ex : Py.inner "[12]" = "12" /\ Py.inner "[" = "" /\ Py.inner "[]" = "".
Proof. repeat split. Qed.

(** ** Lists, padding and subscripts *)

Section pad_facts.
Context {A : Type}.
Implicit Types (l : list A) (x : A).

Lemma pad_loop_replicate fuel l i x :
  fuel = Z.to_nat (i + 1 - Z.of_nat (length l)) ->
  pad_loop fuel l i x = l ++ replicate fuel x.
Proof.
  revert l. induction fuel as [|fuel IH]; intros l Hfuel; simpl.
  - by rewrite app_nil_r.
  - destruct (Z.leb_spec (Z.of_nat (length l)) i) as [_|Hlt]; [|lia].
    rewrite IH; [by rewrite <- app_assoc|].
    rewrite length_app; simpl. lia.
Qed.

Lemma pad_replicate l i x :
  pad l i x = l ++ replicate (Z.to_nat (i + 1 - Z.of_nat (length l))) x.
Proof. by apply pad_loop_replicate. Qed.

(** On leaving the loop its test is false. *)
Lemma pad_length l i x : (i < Z.of_nat (length (pad l i x)))%Z.
Proof. rewrite pad_replicate, length_app, length_replicate. lia. Qed.

Lemma pad_nat l (i : nat) x :
  pad l (Z.of_nat i) x = l ++ replicate (S i - length l) x.
Proof. rewrite pad_replicate. f_equal. f_equal. lia. Qed.

Lemma pad_covered l i x : (i < Z.of_nat (length l))%Z -> pad l i x = l.
Proof.
  intros Hi. rewrite pad_replicate.
  replace (Z.to_nat _) with 0%nat by lia. apply app_nil_r.
Qed.
End pad_facts.

Lemma getitem_Some {A} (l : list A) i x : l !! i = Some x -> getitem l i = Ok x.
Proof. unfold getitem. by intros ->. Qed.

Lemma getitem_None {A} (l : list A) i : l !! i = None -> getitem l i = Raise IndexError.
Proof. unfold getitem. by intros ->. Qed.

(** ** The store operation *)

Lemma save_inside states i h r seq :
  states !! i = Some seq ->
  save states i h r = Ok (<[i := seq ++ [OrgState.new i h r]]> states).
Proof.
  intros Hi. unfold save.
  rewrite pad_covered by (apply lookup_lt_Some in Hi; lia).
  by rewrite (getitem_Some _ _ _ Hi).
Qed.

Lemma save_beyond states i h r :
  length states <= i ->
  save states i h r =
    Ok (states ++ replicate (i - length states) [] ++ [[OrgState.new i h r]]).
Proof.
  intros Hi. unfold save. rewrite pad_nat.
  replace (S i - length states) with (i - length states + 1) by lia.
  rewrite replicate_add; simpl.
  set (gap := replicate (i - length states) ([] : list OrgState.t)).
  assert (Hlen : length (states ++ gap) = i).
  { rewrite length_app. unfold gap. rewrite length_replicate. lia. }
  rewrite (getitem_Some _ _ [] ).
  2:{ rewrite app_assoc, lookup_app_r; rewrite Hlen; [|lia]. by rewrite Nat.sub_diag. }
  simpl. f_equal. rewrite app_assoc.
  rewrite <- Hlen at 1. rewrite insert_app_r_alt by lia.
  rewrite Nat.sub_diag. simpl. by rewrite <- app_assoc.
Qed.

(** ** Tokens *)

Lemma chars_str l : Py.chars (Py.str l) = l.
Proof. apply list_ascii_of_string_of_list_ascii. Qed.

Lemma lstrip_head l :
  match Py.lstrip l with [] => True | c :: _ => Py.isspace c = false end.
Proof.
  unfold Py.lstrip. induction l as [|c l IH]; simpl; [done|].
  destruct (Py.isspace c) eqn:Hc; [done | by rewrite Hc].
Qed.

(** What [strip] leaves is empty or holds a character that is not
    whitespace. *)
Lemma rstrip_nonspace l :
  Py.rstrip l = [] \/ exists c, c ∈ Py.rstrip l /\ Py.isspace c = false.
Proof.
  unfold Py.rstrip, Py.rstrip_by. pose proof (lstrip_head (rev l)) as H.
  unfold Py.lstrip in H.
  destruct (Py.lstrip_by Py.isspace (rev l)) as [|c l']; [by left|right].
  exists c. split; [|done].
  apply list_elem_of_In, in_rev. rewrite rev_involutive. by left.
Qed.

Lemma words_aux_nonempty l w ws :
  Py.words_aux l = (w, ws) -> Forall (fun t => t <> []) ws.
Proof.
  revert w ws. induction l as [|c l IH]; simpl; intros w ws.
  - intros [= <- <-]. constructor.
  - destruct (Py.words_aux l) as [w' ws'] eqn:Haux.
    specialize (IH _ _ eq_refl).
    destruct (Py.isspace c); intros [= <- <-]; [|done].
    destruct w'; [done|]. by constructor.
Qed.

(** The tokens of [split] are never empty, so [tok[0]] and [tok[-1]]
    cannot fail on them. *)
Lemma split_nonempty s : Forall (fun tok => Py.chars tok <> []) (Py.split s).
Proof.
  unfold Py.split, Py.words.
  destruct (Py.words_aux (Py.chars s)) as [w ws] eqn:Haux.
  apply words_aux_nonempty in Haux.
  apply Forall_fmap.
  assert (Forall (fun t => t <> []) (match w with [] => ws | _ => w :: ws end)) as H.
  { destruct w; [done|]. by constructor. }
  eapply Forall_impl; [exact H|]. intros t Ht; simpl. by rewrite chars_str.
Qed.

Lemma words_nil_spaces l : Py.words l = [] -> forallb Py.isspace l = true.
Proof.
  unfold Py.words. induction l as [|c l IH]; simpl; [done|].
  destruct (Py.words_aux l) as [w ws].
  destruct (Py.isspace c); simpl.
  - intros H. apply IH. by destruct w.
  - done.
Qed.

(** A line that is not empty after [strip] has a first token: the
    subscript [line_parts[0]] of both parsers cannot fail. *)
Lemma split_strip_nil line :
  Py.split (Py.strip line) = [] -> Py.len (Py.strip line) = 0.
Proof.
  unfold Py.split, Py.strip, Py.len. rewrite chars_str.
  intros H. apply fmap_nil_inv in H. apply words_nil_spaces in H.
  destruct (rstrip_nonspace (Py.lstrip (Py.chars line))) as [-> | (c & Hin & Hc)]; [done|].
  rewrite forallb_forall in H. apply list_elem_of_In, H in Hin. congruence.
Qed.

Lemma len_zero_split s : Py.len s = 0 -> Py.split s = [].
Proof.
  unfold Py.len, Py.split. intros H. apply nil_length_inv in H. by rewrite H.
Qed.

Lemma first_token line part0 rest :
  Py.split (Py.strip line) = part0 :: rest ->
  (Py.len (Py.strip line) =? 0)%nat = false.
Proof.
  intros H. apply Nat.eqb_neq. intros Hz. apply len_zero_split in Hz. congruence.
Qed.

(** [int] raises nothing but [ValueError]. *)
Lemma int_raises s e : Py.int s = Raise e -> e = ValueError.
Proof. unfold Py.int. destruct (Py.int_signed _); congruence. Qed.

(** ** Indices read from the text are not negative *)

Lemma digit_val_nonneg c d : Py.digit_val c = Some d -> (0 <= d)%Z.
Proof.
  unfold Py.digit_val, Py.isdecimal, Py.ord.
  destruct (48 <=? nat_of_ascii c)%nat eqn:Hlo; simpl; [|done].
  destruct (nat_of_ascii c <=? 57)%nat; [|done].
  apply Nat.leb_le in Hlo. intros [= <-]. lia.
Qed.

Lemma int_digits_nonneg l acc us z :
  (0 <= acc)%Z -> Py.int_digits acc us l = Some z -> (0 <= z)%Z.
Proof.
  revert acc us. induction l as [|c l IH]; simpl; intros acc us Hacc.
  - destruct us; [done|]. by intros [= <-].
  - destruct (Ascii.eqb c "_").
    + destruct us; [done|]. by apply IH.
    + destruct (Py.digit_val c) as [d|] eqn:Hd; [|done].
      apply digit_val_nonneg in Hd. apply IH. lia.
Qed.

Lemma int_unsigned_nonneg l z : Py.int_unsigned l = Some z -> (0 <= z)%Z.
Proof.
  destruct l as [|c l]; simpl; [done|].
  destruct (Py.digit_val c) as [d|] eqn:Hd; [|done].
  apply digit_val_nonneg in Hd. by apply int_digits_nonneg.
Qed.

Lemma lstrip_by_elem sp l c : c ∈ Py.lstrip_by sp l -> c ∈ l.
Proof.
  induction l as [|x l IH]; simpl; [done|].
  destruct (sp x); [|done]. intros H. right. by apply IH.
Qed.

Lemma rstrip_by_elem sp l c : c ∈ Py.rstrip_by sp l -> c ∈ l.
Proof.
  unfold Py.rstrip_by. intros H.
  apply list_elem_of_In, in_rev, list_elem_of_In, lstrip_by_elem in H.
  by apply list_elem_of_In, in_rev, list_elem_of_In.
Qed.

(** A negative result of [int] comes from a minus sign in the text. *)
Lemma int_negative_sign s z :
  Py.int s = Ok z -> (z < 0)%Z -> "-"%char ∈ Py.chars s.
Proof.
  unfold Py.int.
  destruct (Py.int_signed _) as [z'|] eqn:Hint; [|done].
  intros [= ->] Hneg.
  apply (lstrip_by_elem Py.int_space), (rstrip_by_elem Py.int_space).
  destruct (Py.rstrip_by _ _) as [|c l]; unfold Py.int_signed in Hint; [done|].
  destruct (Ascii.eqb c "+") eqn:Hplus.
  { apply int_unsigned_nonneg in Hint. lia. }
  destruct (Ascii.eqb_spec c "-") as [->|_]; [by left|].
  apply int_unsigned_nonneg in Hint. lia.
Qed.

(** The organism index of a boundary line and the register index of a
    register line of Format B are natural numbers. *)
Lemma int_isnumeric_nonneg s z :
  Py.isnumeric s = true -> Py.int s = Ok z -> (0 <= z)%Z.
Proof.
  intros Hnum Hint. destruct (Z.lt_ge_cases z 0) as [Hneg|]; [|done].
  pose proof (int_negative_sign _ _ Hint Hneg) as Hsign.
  unfold Py.isnumeric in Hnum.
  assert (forallb Py.isnumeric_char (Py.chars s) = true) as Hall.
  { by destruct (Py.chars s). }
  rewrite forallb_forall in Hall. apply list_elem_of_In, Hall in Hsign.
  by vm_compute in Hsign.
Qed.

(** ** The Format-A parser *)

(** C6: on the lines [U:-1], [CPU ... IP:3 AX:10 BX:0] and
    [R-Head:5 W-Head:6 F-Head:0] the Format-A parser leaves, after the
    save at the end of the input, exactly one snapshot for organism 0,
    with heads IP = 3, RH = 5, WH = 6, FH = 0 and registers [10, 0]. *)
Theorem avida_scenario :
  parse_avida_trace avida_example = Ok [[avida_example_state]].
Proof. vm_compute. reflexivity. Qed.

Lemma new_org_parts line :
  is_new_org (Py.split (Py.strip line)) = true ->
  Py.split (Py.strip line) = ["U:-1"].
Proof. unfold is_new_org. intros H. by apply bool_decide_eq_true in H. Qed.

(** Only a start-of-update line touches the store and the organism
    index. *)
Lemma avida_line_data st line st' :
  is_new_org (Py.split (Py.strip line)) = false ->
  avida_line st line = Ok st' ->
  org_states st' = org_states st /\ org_idx st' = org_idx st.
Proof.
  intros Hno. unfold avida_line.
  destruct (Py.len (Py.strip line) =? 0)%nat; [by intros [= <-]|].
  rewrite Hno; simpl.
  destruct (getitem _ 0) as [part0|]; simpl; [|done].
  destruct (String.eqb part0 "CPU").
  { destruct (foldM avida_cpu_part _ _); simpl; [|done]. by intros [= <-]. }
  destruct (String.eqb (Py.upto 7 part0) "R-Head:").
  { destruct (foldM avida_head_part _ _); simpl; [|done]. by intros [= <-]. }
  by intros [= <-].
Qed.

Lemma avida_line_new_org st line st' :
  is_new_org (Py.split (Py.strip line)) = true ->
  avida_line st line = Ok st' ->
  exists states, save_current st = Ok states /\
    st' = {| org_states := states; org_idx := Some 0; heads := []; regs := [] |}.
Proof.
  intros Hnew. unfold avida_line.
  pose proof (new_org_parts _ Hnew) as Hparts.
  rewrite (first_token _ _ _ Hparts), Hnew, Hparts.
  destruct (save_current st) as [states|]; simpl; [|done].
  intros [= <-]. by exists states.
Qed.

Lemma avida_line_inv k st line st' :
  avida_inv k st ->
  avida_line st line = Ok st' ->
  avida_inv (k + length (new_org_lines [line])) st'.
Proof.
  intros Hinv Hline. unfold new_org_lines; simpl.
  destruct (is_new_org (Py.split (Py.strip line))) eqn:Hnew; simpl.
  - apply (avida_line_new_org _ _ _ Hnew) in Hline as (states & Hsave & ->).
    unfold avida_inv in *; simpl. split; [done|].
    unfold save_current in Hsave. destruct (org_idx st) as [i|].
    + destruct Hinv as [-> [[-> Hst] | (seq & Hst & ->)]]; rewrite Hst in Hsave.
      * injection Hsave as <-. right. eexists. split; [done|]. simpl. lia.
      * injection Hsave as <-. right. eexists. split; [done|].
        rewrite length_app. simpl. lia.
    + destruct Hinv as [-> Hst]. rewrite Hst in Hsave. injection Hsave as <-.
      by left.
  - apply (avida_line_data _ _ _ Hnew) in Hline as [Hs Hi].
    unfold avida_inv in *. rewrite Hs, Hi, Nat.add_0_r. exact Hinv.
Qed.

Lemma new_org_lines_cons line lines :
  length (new_org_lines (line :: lines))
  = length (new_org_lines [line]) + length (new_org_lines lines).
Proof.
  unfold new_org_lines; simpl.
  by destruct (is_new_org (Py.split (Py.strip line))).
Qed.

Lemma avida_lines_inv lines k st st' :
  avida_inv k st ->
  foldM avida_line st lines = Ok st' ->
  avida_inv (k + length (new_org_lines lines)) st'.
Proof.
  revert k st. induction lines as [|line lines IH]; cbn [foldM]; intros k st Hinv.
  - intros [= <-]. simpl. by rewrite Nat.add_0_r.
  - intros Hrest.
    destruct (avida_line st line) as [st1|] eqn:Hline; simpl in Hrest; [|done].
    rewrite new_org_lines_cons, Nat.add_assoc.
    eapply IH; [|exact Hrest]. by eapply avida_line_inv.
Qed.

(** C4, as the code has it: whatever the Format-A parser accepts, it
    records as many snapshots, all under organism 0, as the input has
    start-of-update lines; an input without such a line records no
    snapshot at all, whatever CPU or head data it holds, because the
    organism index is still [None] at the end of the input. *)
Theorem avida_snapshots_per_boundary lines store :
  parse_avida_trace lines = Ok store ->
  (new_org_lines lines = [] /\ store = [])
  \/ (exists seq, store = [seq] /\ length seq = length (new_org_lines lines)
                  /\ new_org_lines lines <> []).
Proof.
  unfold parse_avida_trace, avida_lines.
  destruct (foldM avida_line tracer_init lines) as [st|] eqn:Hlines; simpl; [|done].
  eapply (avida_lines_inv _ 0) in Hlines; [|by split].
  simpl in Hlines. unfold avida_inv in Hlines. unfold save_current.
  destruct (org_idx st) as [i|].
  - destruct Hlines as [-> [[Hk ->] | (seq & -> & Hk)]]; intros [= <-]; right;
      eexists; (split; [done|]); rewrite Hk;
      (split; [rewrite ?length_app; simpl; lia|]);
      intros Hnil; rewrite Hnil in Hk; done.
  - destruct Hlines as [Hk ->]. intros [= <-]. left. split; [|done].
    by apply nil_length_inv.
Qed.

Lemma avida_snapshots_per_boundary_witness :
  parse_avida_trace ["CPU ... IP:3 AX:10 BX:0"; "R-Head:5 W-Head:6 F-Head:0"] = Ok []
  /\ ((new_org_lines ["CPU ... IP:3 AX:10 BX:0"; "R-Head:5 W-Head:6 F-Head:0"] = []
       /\ ([] : trace_store) = [])
      \/ (exists seq, ([] : trace_store) = [seq]
            /\ length seq
               = length (new_org_lines ["CPU ... IP:3 AX:10 BX:0"; "R-Head:5 W-Head:6 F-Head:0"])
            /\ new_org_lines ["CPU ... IP:3 AX:10 BX:0"; "R-Head:5 W-Head:6 F-Head:0"] <> [])).
Proof.
  split; [vm_compute; reflexivity|].
  apply (avida_snapshots_per_boundary
           ["CPU ... IP:3 AX:10 BX:0"; "R-Head:5 W-Head:6 F-Head:0"] []).
  vm_compute; reflexivity.
Defined.

(** C4, as stated, fails: CPU and head data without a start-of-update
    line leaves the store empty, so organism 0 has no snapshot. *)
Lemma avida_no_boundary_no_snapshot :
  parse_avida_trace ["CPU ... IP:3 AX:10 BX:0"; "R-Head:5 W-Head:6 F-Head:0"] = Ok []
  /\ ~ (exists store seq,
          parse_avida_trace ["CPU ... IP:3 AX:10 BX:0"; "R-Head:5 W-Head:6 F-Head:0"]
          = Ok store /\ store !! 0 = Some seq /\ seq <> []).
Proof.
  split; [vm_compute; reflexivity|].
  intros (store & seq & Hparse & Hlook & _).
  vm_compute in Hparse. injection Hparse as <-. done.
Qed.

(** ** The Format-B parser *)

(** The scan of a heads line takes the tokens two by two from the first
    token of the line on, and ends at the first token that is not a head
    name or that is the last token of the line. *)
Lemma mabe_heads_pairs pairs stop rest heads :
  Forall head_pair pairs ->
  is_head_name stop = false \/ rest = [] ->
  mabe_heads (head_tokens pairs ++ stop :: rest) heads = Ok (set_heads heads pairs).
Proof.
  intros Hpairs Hstop. revert heads.
  induction Hpairs as [|[tok val] pairs [Hname Hval] _ IH]; intros heads; simpl in *.
  - destruct Hstop as [-> | ->]; [done|].
    by rewrite bool_decide_eq_true_2, andb_false_r.
  - rewrite Hname; simpl. unfold int_value.
    destruct (Py.int val) as [v|]; [|done]. simpl. apply IH.
Qed.

(** C1, as the code has it: the scan of a heads line starts at the
    leading [IP:] token itself, which names the first head, so that the
    line of the scenario has to read [IP: 2 RH: 1 (nop)]; on the lines
    [[0]], [[0] 7], [IP: 2 RH: 1 (nop)], [[1]] the store holds, once the
    boundary line [[1]] has saved organism 0, exactly one snapshot, with
    registers [7] and heads IP = 2, RH = 1.  The scan ends at the first
    token that lacks a trailing colon, starts with an open parenthesis
    or is the last token of the line. *)
Theorem mabe_scenario_scan_from_first_token :
  mabe_lines ["[0]"; "[0] 7"; "IP: 2 RH: 1 (nop)"; "[1]"]
  = Ok {| org_states := [[mabe_example_state]]; org_idx := Some 1;
          heads := []; regs := [] |}
  /\ forall pairs stop rest heads,
      Forall head_pair pairs ->
      is_head_name stop = false \/ rest = [] ->
      mabe_heads (head_tokens pairs ++ stop :: rest) heads
      = Ok (set_heads heads pairs).
Proof.
  split; [vm_compute; reflexivity|].
  intros pairs stop rest heads. apply mabe_heads_pairs.
Qed.

Lemma mabe_scenario_scan_from_first_token_witness :
  Forall head_pair [("IP:", "2"); ("RH:", "1")]
  /\ (is_head_name "(nop)" = false \/ ["tail"] = [])
  /\ mabe_heads ["IP:"; "2"; "RH:"; "1"; "(nop)"; "tail"] []
     = Ok [("IP", 2%Z); ("RH", 1%Z)].
Proof.
  assert (Forall head_pair [("IP:", "2"); ("RH:", "1")]) as Hpairs.
  { repeat constructor. }
  assert (is_head_name "(nop)" = false \/ ["tail"] = []) as Hstop.
  { left. reflexivity. }
  split; [exact Hpairs|]. split; [exact Hstop|].
  exact (proj2 mabe_scenario_scan_from_first_token
           [("IP:", "2"); ("RH:", "1")] "(nop)" ["tail"] [] Hpairs Hstop).
Defined.

(** C1, as stated, fails: on the line [IP: IP: 2 RH: 1] the scan pairs
    the leading [IP:] with the second [IP:], which is no integer, and the
    parse stops with [ValueError] before the line [[1]] is read. *)
Lemma mabe_scenario_as_stated_raises :
  mabe_lines ["[0]"; "[0] 7"; "IP: IP: 2 RH: 1"] = Raise ValueError
  /\ mabe_lines ["[0]"; "[0] 7"; "IP: IP: 2 RH: 1"; "[1]"] = Raise ValueError
  /\ parse_mabe_trace ["[0]"; "[0] 7"; "IP: IP: 2 RH: 1"; "[1]"] = Raise ValueError.
Proof. repeat split; vm_compute; reflexivity. Qed.

(** A heads line whose pairs use up all its tokens: the source subscripts
    [line_parts[idx]] before it tests [idx < len(line_parts) - 1]. *)
Example mabe_heads_line_used_up :
  mabe_lines ["[0]"; "IP: 2 RH: 1"] = Raise IndexError.
Proof. vm_compute. reflexivity. Qed.

(** ** Lines and tokens that match no form *)

Lemma tracer_eta st :
  {| org_states := org_states st; org_idx := org_idx st;
     heads := heads st; regs := regs st |} = st.
Proof. by destruct st. Qed.

Lemma mabe_unmatched_skipped st line :
  mabe_unmatched line = true -> mabe_line st line = Ok st.
Proof.
  unfold mabe_unmatched, mabe_line.
  destruct (Py.len (Py.strip line) =? 0)%nat eqn:Hlen; [done|].
  destruct (Py.split (Py.strip line)) as [|part0 rest] eqn:Hparts.
  { apply split_strip_nil in Hparts. apply Nat.eqb_neq in Hlen. done. }
  simpl. intros [Hb Hip]%andb_true_iff.
  apply negb_true_iff in Hb, Hip. by rewrite Hb, Hip.
Qed.

Lemma mabe_single_token_skipped st line tok :
  Py.split (Py.strip line) = [tok] ->
  is_bracketed_number tok = false ->
  mabe_line st line = Ok st.
Proof.
  intros Hparts Hb. unfold mabe_line.
  rewrite (first_token _ _ _ Hparts), Hparts. simpl. rewrite Hb.
  destruct (String.eqb tok "IP:"); [|done].
  simpl. rewrite andb_false_r. simpl. by rewrite tracer_eta.
Qed.

Lemma avida_unmatched_skipped st line :
  avida_unmatched line = true -> avida_line st line = Ok st.
Proof.
  unfold avida_unmatched, avida_line.
  destruct (Py.len (Py.strip line) =? 0)%nat eqn:Hlen; [done|].
  intros [Hnew Hrest]%andb_true_iff. apply negb_true_iff in Hnew.
  rewrite Hnew. simpl.
  destruct (Py.split (Py.strip line)) as [|part0 rest] eqn:Hparts.
  { apply split_strip_nil in Hparts. apply Nat.eqb_neq in Hlen. done. }
  simpl. apply andb_true_iff in Hrest as [Hcpu Hhead].
  apply negb_true_iff in Hcpu, Hhead. by rewrite Hcpu, Hhead.
Qed.

Lemma cpu_part_skipped hr line_part :
  cpu_part_matches line_part = false -> avida_cpu_part hr line_part = Ok hr.
Proof.
  unfold cpu_part_matches, avida_cpu_part. destruct hr as [h r].
  destruct (3 <? Py.len line_part)%nat; simpl; [|done].
  intros [-> ->]%orb_false_iff. done.
Qed.

Lemma head_part_skipped h line_part :
  head_part_matches line_part = false -> avida_head_part h line_part = Ok h.
Proof.
  unfold head_part_matches, avida_head_part.
  destruct (8 <=? Py.len line_part)%nat; simpl; [|done].
  intros [[-> ->]%orb_false_iff ->]%orb_false_iff. done.
Qed.

(** A token that matches its form is converted with [int], and a value
    part that is no integer literal raises there. *)
Lemma mabe_register_line_raises st line part0 part1 rest :
  Py.split (Py.strip line) = part0 :: part1 :: rest ->
  is_bracketed_number part0 = true ->
  Py.int part1 = Raise ValueError ->
  mabe_line st line = Raise ValueError.
Proof.
  intros Hparts Hb Hint. unfold mabe_line.
  rewrite (first_token _ _ _ Hparts), Hparts. simpl. rewrite Hb.
  destruct (Py.int (Py.inner part0)) as [reg_idx|e] eqn:Hidx; simpl.
  - by rewrite Hint.
  - by rewrite (int_raises _ _ Hidx).
Qed.

Lemma mabe_head_pair_raises tok val rest h :
  is_head_name tok = true ->
  Py.int val = Raise ValueError ->
  mabe_heads (tok :: val :: rest) h = Raise ValueError.
Proof. intros Hname Hint. simpl. by rewrite Hname, Hint. Qed.

Lemma cpu_part_raises hr line_part :
  cpu_part_matches line_part = true ->
  Py.int (Py.from 3 line_part) = Raise ValueError ->
  avida_cpu_part hr line_part = Raise ValueError.
Proof.
  unfold cpu_part_matches, avida_cpu_part. destruct hr as [h r].
  intros [Hlen Hform]%andb_true_iff Hint. rewrite Hlen. simpl.
  destruct (String.eqb (Py.upto 3 line_part) "IP:"); [by rewrite Hint|].
  simpl in Hform. rewrite Hform.
  unfold Py.first. unfold Py.len in Hlen.
  destruct (Py.chars line_part); [done|]. simpl. by rewrite Hint.
Qed.

Lemma head_part_raises h line_part :
  head_part_matches line_part = true ->
  Py.int (Py.from 7 line_part) = Raise ValueError ->
  avida_head_part h line_part = Raise ValueError.
Proof.
  unfold head_part_matches, avida_head_part.
  intros [Hlen Hform]%andb_true_iff Hint. rewrite Hlen.
  destruct (String.eqb (Py.upto 6 line_part) "R-Head"); [by rewrite Hint|].
  destruct (String.eqb (Py.upto 6 line_part) "W-Head"); [by rewrite Hint|].
  simpl in Hform. by rewrite Hform, Hint.
Qed.

(** C2, as the code has it: both parsers skip, raising nothing and
    leaving the parse state as it is, every blank line and every line
    whose first token matches no line form, a Format-B line of one token
    that is no boundary, and on a CPU or heads line of Format A every
    token that matches no token form.  A token that matches its form but
    whose value part is not a valid integer is not skipped: [int] raises
    [ValueError] on it, on a register line or a head pair of Format B and
    on a CPU or head token of Format A. *)
Theorem unmatched_skipped_bad_integer_raises :
  (forall st line, mabe_unmatched line = true -> mabe_line st line = Ok st)
  /\ (forall st line tok,
        Py.split (Py.strip line) = [tok] -> is_bracketed_number tok = false ->
        mabe_line st line = Ok st)
  /\ (forall st line, avida_unmatched line = true -> avida_line st line = Ok st)
  /\ (forall hr line_part,
        cpu_part_matches line_part = false -> avida_cpu_part hr line_part = Ok hr)
  /\ (forall h line_part,
        head_part_matches line_part = false -> avida_head_part h line_part = Ok h)
  /\ (forall st line part0 part1 rest,
        Py.split (Py.strip line) = part0 :: part1 :: rest ->
        is_bracketed_number part0 = true ->
        Py.int part1 = Raise ValueError ->
        mabe_line st line = Raise ValueError)
  /\ (forall tok val rest h,
        is_head_name tok = true -> Py.int val = Raise ValueError ->
        mabe_heads (tok :: val :: rest) h = Raise ValueError)
  /\ (forall hr line_part,
        cpu_part_matches line_part = true ->
        Py.int (Py.from 3 line_part) = Raise ValueError ->
        avida_cpu_part hr line_part = Raise ValueError)
  /\ (forall h line_part,
        head_part_matches line_part = true ->
        Py.int (Py.from 7 line_part) = Raise ValueError ->
        avida_head_part h line_part = Raise ValueError).
Proof.
  split; [exact mabe_unmatched_skipped|].
  split; [exact mabe_single_token_skipped|].
  split; [exact avida_unmatched_skipped|].
  split; [exact cpu_part_skipped|].
  split; [exact head_part_skipped|].
  split; [exact mabe_register_line_raises|].
  split; [exact mabe_head_pair_raises|].
  split; [exact cpu_part_raises|exact head_part_raises].
Qed.

Lemma unmatched_skipped_bad_integer_raises_witness :
  mabe_unmatched "# a comment line" = true
  /\ mabe_line tracer_init "# a comment line" = Ok tracer_init
  /\ Py.int "foo" = Raise ValueError
  /\ mabe_line tracer_init "[0] foo" = Raise ValueError.
Proof.
  assert (mabe_unmatched "# a comment line" = true) as Hskip by reflexivity.
  assert (Py.int "foo" = Raise ValueError) as Hint by reflexivity.
  split; [exact Hskip|].
  split; [exact (proj1 unmatched_skipped_bad_integer_raises tracer_init _ Hskip)|].
  split; [exact Hint|].
  exact (proj1 (proj2 (proj2 (proj2 (proj2 (proj2 unmatched_skipped_bad_integer_raises)))))
           tracer_init "[0] foo" "[0]" "foo" [] eq_refl eq_refl Hint).
Defined.

(** C2, as stated, fails: a register line, a head pair, a CPU token and a
    head token whose value part is no integer each end the parse with
    [ValueError]. *)
Lemma bad_integer_raises :
  parse_mabe_trace ["[0] foo"] = Raise ValueError
  /\ parse_mabe_trace ["IP: 1 RH: bar x"] = Raise ValueError
  /\ parse_avida_trace ["CPU IP:x"] = Raise ValueError
  /\ parse_avida_trace ["R-Head:x1"] = Raise ValueError.
Proof. repeat split; vm_compute; reflexivity. Qed.

(** ** The store has no gaps *)

(** C9: the save at a boundary line and the save at the end of the input
    raise nothing and leave a store in which every index below a present
    index is present; the organism that is saved is present afterwards,
    and the indices between the old size of the store and that organism
    hold empty sequences. *)
Theorem store_has_no_gaps st :
  exists states,
    save_current st = Ok states
    /\ (forall i j, present states i -> j <= i -> present states j)
    /\ (forall i, org_idx st = Some i ->
          present states i
          /\ forall j, length (org_states st) <= j < i -> states !! j = Some []).
Proof.
  unfold save_current, present. destruct st as [states [i|] h r]; simpl.
  2:{ exists states. split; [done|]. split; [|done].
      intros i j Hi Hj. apply lookup_lt_is_Some in Hi.
      apply lookup_lt_is_Some. lia. }
  destruct (states !! i) as [seq|] eqn:Hi.
  - eexists. split; [by apply save_inside|].
    apply lookup_lt_Some in Hi.
    split; [|intros ? [= <-]; split].
    + intros k j Hk Hj. apply lookup_lt_is_Some in Hk.
      apply lookup_lt_is_Some. lia.
    + rewrite list_lookup_insert_eq by done. by eexists.
    + intros j Hj. lia.
  - apply lookup_ge_None in Hi.
    eexists. split; [by apply save_beyond|].
    split; [|intros ? [= <-]; split].
    + intros k j Hk Hj. apply lookup_lt_is_Some in Hk.
      apply lookup_lt_is_Some. lia.
    + apply lookup_lt_is_Some.
      rewrite !length_app, length_replicate. simpl. lia.
    + intros j Hj. rewrite lookup_app_r by lia.
      rewrite lookup_app_l by (rewrite length_replicate; lia).
      apply lookup_replicate_2. lia.
Qed.

(** ** Loops that may return *)

Section for_each_facts.
Context {A R : Type}.
Implicit Types (body : A -> flow R) (l : list A).

Lemma for_each_app body l1 l2 :
  for_each body (l1 ++ l2) = and_then (for_each body l1) (for_each body l2).
Proof.
  induction l1 as [|x l1 IH]; simpl; [done|]. by destruct (body x).
Qed.

Lemma for_each_all_next body l :
  (forall x, x ∈ l -> body x = Next) -> for_each body l = Next.
Proof.
  induction l as [|x l IH]; simpl; intros H; [done|].
  rewrite (H x) by left. apply IH. intros y Hy. apply H. by right.
Qed.

Lemma for_each_first body pre x post :
  for_each body pre = Next -> body x <> Next ->
  for_each body (pre ++ x :: post) = body x.
Proof.
  intros Hpre Hx. rewrite for_each_app, Hpre. simpl. by destruct (body x).
Qed.

Lemma for_each_ext body body' l :
  (forall x, x ∈ l -> body x = body' x) -> for_each body l = for_each body' l.
Proof.
  induction l as [|x l IH]; simpl; intros H; [done|].
  rewrite <- (H x) by left. rewrite IH; [done|].
  intros y Hy. apply H. by right.
Qed.

Lemma for_each_return body l r :
  for_each body l = Return r -> exists x, x ∈ l /\ body x = Return r.
Proof.
  induction l as [|x l IH]; simpl; [done|].
  destruct (body x) as [|r'|e] eqn:Hx; [|intros [= <-]|done].
  - intros (y & Hy & Hr)%IH. exists y. split; [by right|done].
  - exists x. split; [by left|done].
Qed.

Lemma for_each_throw body l e :
  for_each body l = Throw e -> exists x, x ∈ l /\ body x = Throw e.
Proof.
  induction l as [|x l IH]; simpl; [done|].
  destruct (body x) as [|r'|e'] eqn:Hx; [|done|intros [= <-]].
  - intros (y & Hy & Hr)%IH. exists y. split; [by right|done].
  - exists x. split; [by left|done].
Qed.
End for_each_facts.

Lemma seq_split_at s n :
  s < n -> seq 0 n = seq 0 s ++ s :: seq (S s) (n - S s).
Proof.
  intros Hs. replace n with (s + S (n - S s)) at 1 by lia.
  by rewrite seq_app.
Qed.

(** ** One step of the comparison *)

Lemma dict_get_keys d k : k ∈ Dict.keys d -> is_Some (Dict.get d k).
Proof.
  induction d as [|[k' v] d IH]; simpl; [by intros ?%elem_of_nil|].
  intros Hk. destruct (String.eqb k' k) eqn:Hkk; [by eexists|].
  apply elem_of_cons in Hk as [->|Hk]; [|by apply IH].
  by rewrite String.eqb_refl in Hkk.
Qed.

Lemma compare_regs_agree a b step :
  regs_agree a b -> for_each (compare_reg a b step) (seq 0 6) = Next.
Proof.
  intros Hagree. apply for_each_all_next. intros r Hr%elem_of_seq.
  destruct (Hagree r) as (v & Ha & Hb); [lia|].
  unfold compare_reg. rewrite (getitem_Some _ _ _ Ha), (getitem_Some _ _ _ Hb).
  simpl. by rewrite Z.eqb_refl.
Qed.

Lemma compare_head_agree a b step k v :
  Dict.get (OrgState.heads a) k = Some v ->
  Dict.get (OrgState.heads b) k = Some v ->
  compare_head a b step k = Next.
Proof.
  intros Ha Hb. unfold compare_head, dict_item. rewrite Ha, Hb. simpl.
  by rewrite Z.eqb_refl.
Qed.

Lemma compare_heads_agree a b step ks :
  heads_agree a b ks -> for_each (compare_head a b step) ks = Next.
Proof.
  intros Hagree. apply for_each_all_next. intros k Hk.
  destruct (Hagree k Hk) as (v & Ha & Hb). by eapply compare_head_agree.
Qed.

Lemma compare_states_agree a b step :
  snapshots_agree a b -> compare_states a b step = Next.
Proof.
  intros [Hregs Hheads]. unfold compare_states.
  rewrite (compare_regs_agree _ _ _ Hregs). simpl.
  by apply compare_heads_agree.
Qed.

Lemma snapshots_agree_refl a :
  6 <= length (OrgState.regs a) -> snapshots_agree a a.
Proof.
  intros Hlen. split.
  - intros r Hr. destruct (lookup_lt_is_Some_2 (OrgState.regs a) r) as [v Hv]; [lia|].
    by exists v.
  - intros k [v Hv]%dict_get_keys. by exists v.
Qed.

(** ** The loop over the steps *)

Section steps.
Context (self other : trace_store) (org_idx : nat).
Context (seq1 seq2 : list OrgState.t).
Hypothesis Hself : self !! org_idx = Some seq1.
Hypothesis Hother : other !! org_idx = Some seq2.

Lemma compare_step_states step a b :
  seq1 !! step = Some a -> seq2 !! step = Some b ->
  compare_step self other org_idx step = compare_states a b step.
Proof using Hself Hother.
  intros Ha Hb. unfold compare_step.
  rewrite (getitem_Some _ _ _ Hother), (getitem_Some _ _ _ Hself). simpl.
  pose proof (lookup_lt_Some _ _ _ Hb) as Hlt.
  destruct (Nat.leb_spec (length seq2) step); [lia|].
  by rewrite (getitem_Some _ _ _ Ha), (getitem_Some _ _ _ Hb).
Qed.

Lemma compare_step_exhausted step :
  length seq2 <= step ->
  compare_step self other org_idx step = stop (ReachedEnd step) step.
Proof using Hother.
  intros Hlen. unfold compare_step. rewrite (getitem_Some _ _ _ Hother). simpl.
  by destruct (Nat.leb_spec (length seq2) step); [|lia].
Qed.

(** The steps before [s] pass when their snapshots agree. *)
Lemma compare_steps_pass s :
  s <= length seq1 -> s <= length seq2 ->
  (forall t x y, t < s -> seq1 !! t = Some x -> seq2 !! t = Some y ->
                 snapshots_agree x y) ->
  for_each (compare_step self other org_idx) (seq 0 s) = Next.
Proof using Hself Hother.
  intros Hs1 Hs2 Hagree. apply for_each_all_next. intros t Ht%elem_of_seq.
  destruct (lookup_lt_is_Some_2 seq1 t) as [x Hx]; [lia|].
  destruct (lookup_lt_is_Some_2 seq2 t) as [y Hy]; [lia|].
  rewrite (compare_step_states _ _ _ Hx Hy).
  apply compare_states_agree. apply (Hagree t); [lia|done..].
Qed.

(** The comparison ends at the first step that does not pass. *)
Lemma compare_first_outcome s :
  s < length seq1 -> s <= length seq2 ->
  (forall t x y, t < s -> seq1 !! t = Some x -> seq2 !! t = Some y ->
                 snapshots_agree x y) ->
  compare_step self other org_idx s <> Next ->
  for_each (compare_step self other org_idx) (seq 0 (length seq1))
  = compare_step self other org_idx s.
Proof using Hself Hother.
  intros Hs1 Hs2 Hagree Hstep.
  rewrite (seq_split_at s) by done.
  apply for_each_first; [|done].
  apply compare_steps_pass; [lia|done..].
Qed.
End steps.

(** ** A store against itself *)

(** C3, as the code has it: for every store and every organism index
    valid in it whose snapshots each carry at least six registers,
    comparing the store against itself raises nothing, prints nothing
    and returns [None], the result of full agreement. *)
Theorem compare_self_no_divergence (s : trace_store) (i : nat) (seq1 : list OrgState.t) :
  s !! i = Some seq1 ->
  Forall (fun x => 6 <= length (OrgState.regs x)) seq1 ->
  compare_org_trace s s i = Ok {| printed := None; returned := None |}.
Proof.
  intros Hi Hregs. unfold compare_org_trace.
  rewrite (getitem_Some _ _ _ Hi). simpl.
  rewrite (compare_steps_pass s s i seq1 seq1 Hi Hi); [done|lia|lia|].
  intros t x y _ Hx Hy. assert (x = y) as <- by congruence.
  apply snapshots_agree_refl.
  rewrite Forall_forall in Hregs. apply Hregs. by eapply list_elem_of_lookup_2.
Qed.

Lemma compare_self_no_divergence_witness :
  six_store !! 0 = Some [OrgState.new 0 [("IP", 3%Z)] six_zeros]
  /\ compare_org_trace six_store six_store 0
     = Ok {| printed := None; returned := None |}.
Proof.
  split; [reflexivity|].
  apply (compare_self_no_divergence six_store 0
           [OrgState.new 0 [("IP", 3%Z)] six_zeros]); [reflexivity|].
  repeat constructor.
Defined.

(** C3, as stated, fails: the store that the Format-A scenario produces
    has a snapshot of two registers, and comparing it against itself
    raises [IndexError] at register 2. *)
Lemma compare_self_short_registers_raises :
  parse_avida_trace avida_example = Ok short_store
  /\ compare_org_trace short_store short_store 0 = Raise IndexError.
Proof. split; vm_compute; reflexivity. Qed.

(** ** What the caller gets back *)

Lemma compare_reg_return a b step r ret :
  compare_reg a b step r = Return ret -> ret.2 = report_step ret.1.
Proof.
  unfold compare_reg.
  destruct (getitem (OrgState.regs a) r); simpl; [|done].
  destruct (getitem (OrgState.regs b) r); simpl; [|done].
  destruct (negb _); [|done]. by intros [= <-].
Qed.

Lemma compare_head_return a b step k ret :
  compare_head a b step k = Return ret -> ret.2 = report_step ret.1.
Proof.
  unfold compare_head.
  destruct (Dict.get (OrgState.heads b) k); [|by intros [= <-]].
  destruct (dict_item (OrgState.heads a) k); simpl; [|done].
  destruct (negb _); [|done]. by intros [= <-].
Qed.

Lemma compare_states_return a b step ret :
  compare_states a b step = Return ret -> ret.2 = report_step ret.1.
Proof.
  unfold compare_states.
  destruct (for_each (compare_reg a b step) (seq 0 6)) as [|r|e] eqn:Hregs; simpl.
  - intros (k & _ & Hk)%for_each_return. by eapply compare_head_return.
  - intros [= <-]. apply for_each_return in Hregs as (x & _ & Hx).
    by eapply compare_reg_return.
  - done.
Qed.

Lemma compare_step_return self other i step ret :
  compare_step self other i step = Return ret -> ret.2 = report_step ret.1.
Proof.
  unfold compare_step.
  destruct (getitem other i) as [seq2|]; simpl; [|done].
  destruct (length seq2 <=? step)%nat; [by intros [= <-]|].
  destruct (getitem self i ≫= _) as [a|]; simpl; [|done].
  destruct (getitem seq2 step) as [b|]; simpl; [|done].
  apply compare_states_return.
Qed.

(** C5, as the code has it: whenever the comparison completes, the
    returned value is the step of the divergence alone, the very step
    that the printed line names, or [None] when nothing was printed
    (full agreement); the category (register index, head name, second
    trace exhausted) goes to the printed line only. *)
Theorem compare_returns_step_only (self other : trace_store) (i : nat) (out : outcome) :
  compare_org_trace self other i = Ok out ->
  returned out = report_step <$> printed out.
Proof.
  unfold compare_org_trace.
  destruct (getitem self i) as [seq1|]; simpl; [|done].
  destruct (for_each _ _) as [|[msg step]|e] eqn:Hloop; [| |done].
  - by intros [= <-].
  - intros [= <-]. simpl.
    apply for_each_return in Hloop as (x & _ & Hx).
    apply compare_step_return in Hx. simpl in Hx. by rewrite Hx.
Qed.

Lemma compare_returns_step_only_witness :
  compare_org_trace six_store [[]] 0
  = Ok {| printed := Some (ReachedEnd 0); returned := Some 0 |}
  /\ Some 0 = report_step <$> Some (ReachedEnd 0).
Proof.
  assert (compare_org_trace six_store [[]] 0
          = Ok {| printed := Some (ReachedEnd 0); returned := Some 0 |}) as H.
  { vm_compute. reflexivity. }
  split; [exact H|].
  exact (compare_returns_step_only six_store [[]] 0 _ H).
Defined.

(** C5, as stated, fails: a second trace that is exhausted at step 0 and
    a mismatch of register 0 at step 0 both return 0, so that no caller
    can tell the two from the returned value. *)
Lemma returned_value_hides_category :
  compare_org_trace six_store [[]] 0
  = Ok {| printed := Some (ReachedEnd 0); returned := Some 0 |}
  /\ compare_org_trace six_store [[OrgState.new 0 [] [1; 0; 0; 0; 0; 0]%Z]] 0
     = Ok {| printed := Some (RegMismatch 0 0); returned := Some 0 |}
  /\ ~ report_recoverable.
Proof.
  assert (compare_org_trace six_store [[]] 0
          = Ok {| printed := Some (ReachedEnd 0); returned := Some 0 |}) as H1.
  { vm_compute. reflexivity. }
  assert (compare_org_trace six_store [[OrgState.new 0 [] [1; 0; 0; 0; 0; 0]%Z]] 0
          = Ok {| printed := Some (RegMismatch 0 0); returned := Some 0 |}) as H2.
  { vm_compute. reflexivity. }
  split; [exact H1|]. split; [exact H2|].
  intros [recover Hrec].
  apply Hrec in H1, H2. simpl in H1, H2. congruence.
Qed.

(** ** The second trace runs out *)

(** C7, as the code has it: when the second store records strictly fewer
    steps for organism [i] than the first and, at every step that both
    record, both snapshots carry the registers 0..5 with equal values and
    every head of the first snapshot is in the second with an equal
    value, the comparator prints that the second trace ended and returns
    the second store's number of steps for [i]. *)
Theorem second_trace_exhausted (self other : trace_store) (i : nat)
    (seq1 seq2 : list OrgState.t) :
  self !! i = Some seq1 ->
  other !! i = Some seq2 ->
  length seq2 < length seq1 ->
  (forall t x y, seq1 !! t = Some x -> seq2 !! t = Some y -> snapshots_agree x y) ->
  compare_org_trace self other i
  = Ok {| printed := Some (ReachedEnd (length seq2));
          returned := Some (length seq2) |}.
Proof.
  intros Hself Hother Hlen Hagree. unfold compare_org_trace.
  rewrite (getitem_Some _ _ _ Hself). simpl.
  rewrite (compare_first_outcome self other i seq1 seq2 Hself Hother (length seq2));
    [|done|done|by eauto|].
  - by rewrite (compare_step_exhausted _ other i seq2 Hother) by done.
  - by rewrite (compare_step_exhausted _ other i seq2 Hother) by done.
Qed.

Lemma second_trace_exhausted_witness :
  compare_org_trace
    [[OrgState.new 0 [("IP", 3%Z)] six_zeros; OrgState.new 0 [("IP", 4%Z)] six_zeros]]
    [[OrgState.new 0 [("IP", 3%Z); ("RH", 1%Z)] six_zeros]] 0
  = Ok {| printed := Some (ReachedEnd 1); returned := Some 1 |}.
Proof.
  apply (second_trace_exhausted
           [[OrgState.new 0 [("IP", 3%Z)] six_zeros; OrgState.new 0 [("IP", 4%Z)] six_zeros]]
           [[OrgState.new 0 [("IP", 3%Z); ("RH", 1%Z)] six_zeros]] 0
           [OrgState.new 0 [("IP", 3%Z)] six_zeros; OrgState.new 0 [("IP", 4%Z)] six_zeros]
           [OrgState.new 0 [("IP", 3%Z); ("RH", 1%Z)] six_zeros]);
    [reflexivity | reflexivity | simpl; lia |].
  intros [|[|t]] x y; simpl; [|done..].
  intros [= <-] [= <-]. split.
  - intros r Hr. do 6 (destruct r as [|r]; [by eexists|]). lia.
  - intros k Hk. apply list_elem_of_singleton in Hk as ->. by eexists.
Defined.

(** C7, as stated, fails: with one register per snapshot nothing differs
    at step 0, yet the comparator raises [IndexError] at register 1 of
    that step and never reports that the second trace ended at step 1. *)
Lemma second_trace_exhausted_short_registers :
  compare_org_trace
    [[OrgState.new 0 [] [1%Z]; OrgState.new 0 [] [1%Z]]]
    [[OrgState.new 0 [] [1%Z]]] 0
  = Raise IndexError.
Proof. vm_compute. reflexivity. Qed.

(** ** Heads of the first snapshot only *)

Lemma regs_lookup_take (x x' : OrgState.t) r :
  take 6 (OrgState.regs x') = take 6 (OrgState.regs x) -> r < 6 ->
  OrgState.regs x' !! r = OrgState.regs x !! r.
Proof.
  intros Htake Hr.
  rewrite <- (lookup_take_lt (OrgState.regs x') 6 r) by done.
  rewrite <- (lookup_take_lt (OrgState.regs x) 6 r) by done.
  by rewrite Htake.
Qed.

(** The outcome of a step depends on the registers 0..5 and on the heads
    of the first snapshot, looked up in both, and on nothing else. *)
Lemma compare_states_footprint a b a' b' step :
  take 6 (OrgState.regs a') = take 6 (OrgState.regs a) ->
  take 6 (OrgState.regs b') = take 6 (OrgState.regs b) ->
  OrgState.heads a' = OrgState.heads a ->
  (forall k, k ∈ Dict.keys (OrgState.heads a) ->
     Dict.get (OrgState.heads b') k = Dict.get (OrgState.heads b) k) ->
  compare_states a' b' step = compare_states a b step.
Proof.
  intros Ha Hb Hheads Hget. unfold compare_states. rewrite Hheads.
  f_equal.
  - apply for_each_ext. intros r Hr%elem_of_seq. unfold compare_reg, getitem.
    rewrite (regs_lookup_take a a'), (regs_lookup_take b b') by (done || lia).
    done.
  - apply for_each_ext. intros k Hk. unfold compare_head.
    by rewrite Hheads, (Hget k Hk).
Qed.

Lemma compare_states_head_missing a b step pre name post :
  regs_agree a b ->
  Dict.keys (OrgState.heads a) = pre ++ name :: post ->
  heads_agree a b pre ->
  Dict.get (OrgState.heads b) name = None ->
  compare_states a b step = stop (HeadMissing name step) step.
Proof.
  intros Hregs Hkeys Hpre Hname. unfold compare_states.
  rewrite (compare_regs_agree _ _ _ Hregs), Hkeys. simpl.
  assert (compare_head a b step name = stop (HeadMissing name step) step) as Hhead.
  { unfold compare_head. by rewrite Hname. }
  rewrite for_each_first; [done|by apply compare_heads_agree|by rewrite Hhead].
Qed.

(** C8, as the code has it: at a step that the comparison reaches, if
    both snapshots carry the registers 0..5 with equal values, the first
    snapshot has a head that the second lacks, and every head that
    precedes it in the first snapshot is in the second with an equal
    value, the comparator reports that head as missing in the second
    trace at that step, not a register.  The outcome of a step is the same
    for snapshots that differ only in registers beyond index 5 or in heads
    that only the second snapshot has. *)
Theorem head_missing_reported :
  (forall (self other : trace_store) i seq1 seq2 s a b pre name post,
      self !! i = Some seq1 -> other !! i = Some seq2 ->
      seq1 !! s = Some a -> seq2 !! s = Some b ->
      (forall t x y, t < s -> seq1 !! t = Some x -> seq2 !! t = Some y ->
                     snapshots_agree x y) ->
      regs_agree a b ->
      Dict.keys (OrgState.heads a) = pre ++ name :: post ->
      heads_agree a b pre ->
      Dict.get (OrgState.heads b) name = None ->
      compare_org_trace self other i
      = Ok {| printed := Some (HeadMissing name s); returned := Some s |})
  /\ (forall a b a' b' step,
        take 6 (OrgState.regs a') = take 6 (OrgState.regs a) ->
        take 6 (OrgState.regs b') = take 6 (OrgState.regs b) ->
        OrgState.heads a' = OrgState.heads a ->
        (forall k, k ∈ Dict.keys (OrgState.heads a) ->
           Dict.get (OrgState.heads b') k = Dict.get (OrgState.heads b) k) ->
        compare_states a' b' step = compare_states a b step).
Proof.
  split; [|exact compare_states_footprint].
  intros self other i seq1 seq2 s a b pre name post
    Hself Hother Ha Hb Hearlier Hregs Hkeys Hpre Hname.
  unfold compare_org_trace. rewrite (getitem_Some _ _ _ Hself). simpl.
  pose proof (lookup_lt_Some _ _ _ Ha) as Hs1.
  pose proof (lookup_lt_Some _ _ _ Hb) as Hs2.
  assert (compare_step self other i s = stop (HeadMissing name s) s) as Hstep.
  { rewrite (compare_step_states self other i seq1 seq2 Hself Hother s a b Ha Hb).
    by eapply compare_states_head_missing. }
  rewrite (compare_first_outcome self other i seq1 seq2 Hself Hother s);
    [by rewrite Hstep|done|lia|done|by rewrite Hstep].
Qed.

Lemma head_missing_reported_witness :
  compare_org_trace
    [[OrgState.new 0 [("IP", 3%Z); ("FH", 0%Z)] (six_zeros ++ [8%Z])]]
    [[OrgState.new 0 [("IP", 3%Z); ("XH", 5%Z)] (six_zeros ++ [9%Z])]] 0
  = Ok {| printed := Some (HeadMissing "FH" 0); returned := Some 0 |}.
Proof.
  apply (proj1 head_missing_reported
           [[OrgState.new 0 [("IP", 3%Z); ("FH", 0%Z)] (six_zeros ++ [8%Z])]]
           [[OrgState.new 0 [("IP", 3%Z); ("XH", 5%Z)] (six_zeros ++ [9%Z])]] 0
           [OrgState.new 0 [("IP", 3%Z); ("FH", 0%Z)] (six_zeros ++ [8%Z])]
           [OrgState.new 0 [("IP", 3%Z); ("XH", 5%Z)] (six_zeros ++ [9%Z])] 0
           (OrgState.new 0 [("IP", 3%Z); ("FH", 0%Z)] (six_zeros ++ [8%Z]))
           (OrgState.new 0 [("IP", 3%Z); ("XH", 5%Z)] (six_zeros ++ [9%Z]))
           ["IP"] "FH" []);
    try reflexivity.
  - intros t x y Ht. lia.
  - intros r Hr. do 6 (destruct r as [|r]; [by eexists|]). lia.
  - intros k Hk. apply list_elem_of_singleton in Hk as ->. by eexists.
Defined.

(** C8, as stated, fails: with equal registers 0..5 and a head [FH] that
    the second snapshot lacks, the comparator reports the mismatch of the
    head [IP] that precedes [FH], not [FH] as missing. *)
Lemma head_missing_preceded_by_mismatch :
  compare_org_trace
    [[OrgState.new 0 [("IP", 1%Z); ("FH", 0%Z)] six_zeros]]
    [[OrgState.new 0 [("IP", 2%Z)] six_zeros]] 0
  = Ok {| printed := Some (HeadMismatch "IP" 0); returned := Some 0 |}.
Proof. vm_compute. reflexivity. Qed.

(** ** Fewer than six registers *)

Lemma compare_regs_short a b step :
  length (OrgState.regs a) < 6 \/ length (OrgState.regs b) < 6 ->
  regs_agree_where_defined a b ->
  for_each (compare_reg a b step) (seq 0 6) = Throw IndexError.
Proof.
  intros Hshort Hagree.
  set (m := length (OrgState.regs a) `min` length (OrgState.regs b)).
  assert (m < 6) as Hm by lia.
  assert (compare_reg a b step m = Throw IndexError) as Hat.
  { unfold compare_reg.
    destruct (OrgState.regs a !! m) as [x|] eqn:Hx.
    - rewrite (getitem_Some _ _ _ Hx). simpl.
      apply lookup_lt_Some in Hx.
      rewrite getitem_None; [done|]. apply lookup_ge_None. lia.
    - by rewrite (getitem_None _ _ Hx). }
  rewrite (seq_split_at m 6 Hm), for_each_first; [done| |by rewrite Hat].
  apply for_each_all_next. intros r Hr%elem_of_seq.
  destruct (lookup_lt_is_Some_2 (OrgState.regs a) r) as [x Hx]; [lia|].
  destruct (lookup_lt_is_Some_2 (OrgState.regs b) r) as [y Hy]; [lia|].
  unfold compare_reg. rewrite (getitem_Some _ _ _ Hx), (getitem_Some _ _ _ Hy). simpl.
  rewrite (Hagree r x y) by (done || lia). by rewrite Z.eqb_refl.
Qed.

Lemma compare_states_reg_mismatch a b step r x y :
  r < 6 ->
  (forall t, t < r ->
     exists v, OrgState.regs a !! t = Some v /\ OrgState.regs b !! t = Some v) ->
  OrgState.regs a !! r = Some x -> OrgState.regs b !! r = Some y -> x <> y ->
  compare_states a b step = stop (RegMismatch r step) step.
Proof.
  intros Hr Hbelow Hx Hy Hne. unfold compare_states.
  assert (compare_reg a b step r = stop (RegMismatch r step) step) as Hat.
  { unfold compare_reg. rewrite (getitem_Some _ _ _ Hx), (getitem_Some _ _ _ Hy).
    simpl. by destruct (Z.eqb_spec x y). }
  rewrite (seq_split_at r 6 Hr), for_each_first; [by rewrite Hat| |by rewrite Hat].
  apply for_each_all_next. intros t Ht%elem_of_seq.
  destruct (Hbelow t) as (v & Ha & Hb); [lia|].
  unfold compare_reg. rewrite (getitem_Some _ _ _ Ha), (getitem_Some _ _ _ Hb).
  simpl. by rewrite Z.eqb_refl.
Qed.

Lemma compare_states_no_throw a b step e :
  6 <= length (OrgState.regs a) -> 6 <= length (OrgState.regs b) ->
  compare_states a b step <> Throw e.
Proof.
  intros Ha Hb. unfold compare_states.
  destruct (for_each (compare_reg a b step) (seq 0 6)) as [|r|e'] eqn:Hregs; simpl.
  - intros (k & Hk & Hthrow)%for_each_throw. unfold compare_head in Hthrow.
    destruct (Dict.get (OrgState.heads b) k); [|done].
    destruct (dict_get_keys _ _ Hk) as [v Hv]. unfold dict_item in Hthrow.
    rewrite Hv in Hthrow. simpl in Hthrow. by destruct (negb _).
  - done.
  - apply for_each_throw in Hregs as (r & Hr%elem_of_seq & Hthrow).
    unfold compare_reg in Hthrow.
    destruct (lookup_lt_is_Some_2 (OrgState.regs a) r) as [x Hx]; [lia|].
    destruct (lookup_lt_is_Some_2 (OrgState.regs b) r) as [y Hy]; [lia|].
    rewrite (getitem_Some _ _ _ Hx), (getitem_Some _ _ _ Hy) in Hthrow.
    simpl in Hthrow. by destruct (negb _).
Qed.

Lemma compare_org_trace_no_throw (self other : trace_store) i seq1 seq2 :
  self !! i = Some seq1 -> other !! i = Some seq2 ->
  Forall (fun x => 6 <= length (OrgState.regs x)) seq1 ->
  Forall (fun x => 6 <= length (OrgState.regs x)) seq2 ->
  is_Ok (compare_org_trace self other i) = true.
Proof.
  intros Hself Hother Hregs1 Hregs2. unfold compare_org_trace.
  rewrite (getitem_Some _ _ _ Hself). simpl.
  destruct (for_each _ _) as [|[msg step]|e] eqn:Hloop; [done..|].
  exfalso. apply for_each_throw in Hloop as (s & Hs%elem_of_seq & Hthrow).
  destruct (Nat.le_gt_cases (length seq2) s) as [Hle|Hlt].
  { by rewrite (compare_step_exhausted self other i seq2 Hother s) in Hthrow. }
  destruct (lookup_lt_is_Some_2 seq1 s) as [a Ha]; [lia|].
  destruct (lookup_lt_is_Some_2 seq2 s) as [b Hb]; [lia|].
  rewrite (compare_step_states self other i seq1 seq2 Hself Hother s a b Ha Hb)
    in Hthrow.
  rewrite Forall_forall in Hregs1, Hregs2.
  revert Hthrow. apply compare_states_no_throw.
  - apply Hregs1. by eapply list_elem_of_lookup_2.
  - apply Hregs2. by eapply list_elem_of_lookup_2.
Qed.

(** C10, as the code has it: at a step that the comparison reaches, if
    one of the two snapshots has fewer than six registers and the two
    register sequences are equal wherever both are defined, the register
    loop leaves the range of the shorter sequence and the comparator
    raises [IndexError] instead of returning an outcome.  When every
    snapshot of the organism carries at least six registers in both
    stores, the comparator raises nothing; and whatever the lengths, a
    register below index 6 that differs between the snapshots, all
    registers below it being there and equal, is reported as the
    mismatch of the step. *)
Theorem short_registers_raise :
  (forall (self other : trace_store) i seq1 seq2 s a b,
      self !! i = Some seq1 -> other !! i = Some seq2 ->
      seq1 !! s = Some a -> seq2 !! s = Some b ->
      (forall t x y, t < s -> seq1 !! t = Some x -> seq2 !! t = Some y ->
                     snapshots_agree x y) ->
      length (OrgState.regs a) < 6 \/ length (OrgState.regs b) < 6 ->
      regs_agree_where_defined a b ->
      compare_org_trace self other i = Raise IndexError)
  /\ (forall (self other : trace_store) i seq1 seq2,
        self !! i = Some seq1 -> other !! i = Some seq2 ->
        Forall (fun x => 6 <= length (OrgState.regs x)) seq1 ->
        Forall (fun x => 6 <= length (OrgState.regs x)) seq2 ->
        is_Ok (compare_org_trace self other i) = true)
  /\ (forall a b step r x y,
        r < 6 ->
        (forall t, t < r ->
           exists v, OrgState.regs a !! t = Some v /\ OrgState.regs b !! t = Some v) ->
        OrgState.regs a !! r = Some x -> OrgState.regs b !! r = Some y -> x <> y ->
        compare_states a b step = stop (RegMismatch r step) step).
Proof.
  split; [|split; [exact compare_org_trace_no_throw|exact compare_states_reg_mismatch]].
  intros self other i seq1 seq2 s a b Hself Hother Ha Hb Hearlier Hshort Hagree.
  unfold compare_org_trace. rewrite (getitem_Some _ _ _ Hself). simpl.
  pose proof (lookup_lt_Some _ _ _ Ha) as Hs1.
  pose proof (lookup_lt_Some _ _ _ Hb) as Hs2.
  assert (compare_step self other i s = Throw IndexError) as Hstep.
  { rewrite (compare_step_states self other i seq1 seq2 Hself Hother s a b Ha Hb).
    unfold compare_states. by rewrite compare_regs_short. }
  rewrite (compare_first_outcome self other i seq1 seq2 Hself Hother s);
    [by rewrite Hstep|done|lia|done|by rewrite Hstep].
Qed.

Lemma short_registers_raise_witness :
  compare_org_trace short_store [[OrgState.new 0 [] [10; 0; 4]%Z]] 0
  = Raise IndexError.
Proof.
  apply (proj1 short_registers_raise
           short_store [[OrgState.new 0 [] [10; 0; 4]%Z]] 0
           [avida_example_state] [OrgState.new 0 [] [10; 0; 4]%Z] 0
           avida_example_state (OrgState.new 0 [] [10; 0; 4]%Z));
    try reflexivity.
  - intros t x y Ht. lia.
  - left. simpl. lia.
  - intros r x y Hr. do 2 (destruct r as [|r]; [simpl; congruence|]).
    simpl. done.
Defined.

(** C10, as stated, fails: with one register in each snapshot the
    comparator still returns an outcome, the mismatch of register 0,
    before any subscript leaves its range. *)
Lemma short_registers_mismatch_returned :
  compare_org_trace [[OrgState.new 0 [] [1%Z]]] [[OrgState.new 0 [] [2%Z]]] 0
  = Ok {| printed := Some (RegMismatch 0 0); returned := Some 0 |}.
Proof. vm_compute. reflexivity. Qed.
(** * Further properties *)

(** ** The agent of [animate.py] *)

Lemma facing_cases (f : Z) :
  (0 <= f < 8)%Z ->
  f = 0%Z \/ f = 1%Z \/ f = 2%Z \/ f = 3%Z \/ f = 4%Z \/ f = 5%Z \/ f = 6%Z \/ f = 7%Z.
Proof. lia. Qed.

Ltac each_facing H :=
  apply facing_cases in H;
  repeat (destruct H as [H | H]); subst.

(** X1: for an agent that faces one of the eight directions, a right
    turn undoes a left turn and a left turn undoes a right turn. *)
Theorem rotate_left_right_inverse (a : Animate.Agent) :
  (0 <= Animate.facing a < 8)%Z ->
  Animate.Agent_rotate_left (Animate.Agent_rotate_right a) = a
  /\ Animate.Agent_rotate_right (Animate.Agent_rotate_left a) = a.
Proof.
  destruct a as [r c f s]. simpl. intros Hf.
  each_facing Hf; split; reflexivity.
Qed.

Lemma rotate_left_right_inverse_witness :
  Animate.Agent_rotate_left (Animate.Agent_rotate_right (Animate.Agent_init 40 25 7))
  = Animate.Agent_init 40 25 7
  /\ Animate.Agent_rotate_right (Animate.Agent_rotate_left (Animate.Agent_init 40 25 7))
     = Animate.Agent_init 40 25 7.
Proof.
  apply (rotate_left_right_inverse (Animate.Agent_init 40 25 7)). simpl. lia.
Defined.

(** X2: a right turn brings any facing, also a negative one or one
    above 7, into 0..7 and changes nothing else; a left turn keeps a
    facing of 0..7 in 0..7, but leaves a facing above 8 above 7. *)
Theorem rotate_facing_range (a : Animate.Agent) :
  (0 <= Animate.facing (Animate.Agent_rotate_right a) < 8)%Z
  /\ Animate.row_idx (Animate.Agent_rotate_right a) = Animate.row_idx a
  /\ Animate.col_idx (Animate.Agent_rotate_right a) = Animate.col_idx a
  /\ Animate.score (Animate.Agent_rotate_right a) = Animate.score a
  /\ ((0 <= Animate.facing a < 8)%Z ->
      (0 <= Animate.facing (Animate.Agent_rotate_left a) < 8)%Z)
  /\ ((8 < Animate.facing a)%Z ->
      (7 < Animate.facing (Animate.Agent_rotate_left a))%Z).
Proof.
  destruct a as [r c f s]. simpl.
  split; [apply Z.mod_pos_bound; lia|].
  repeat split; try (destruct (Z.ltb_spec (f - 1) 0); lia).
Qed.

(** X3: an agent that faces one of the eight directions steps onto one
    of the eight neighbouring tiles, keeping its facing and its score,
    and the same step after half a turn brings it back; an agent with
    any other facing does not move. *)
Theorem agent_move_neighbour_and_back (a : Animate.Agent) :
  ((0 <= Animate.facing a < 8)%Z ->
     let b := Animate.Agent_move a in
     (Z.abs (Animate.row_idx b - Animate.row_idx a) <= 1)%Z
     /\ (Z.abs (Animate.col_idx b - Animate.col_idx a) <= 1)%Z
     /\ (Animate.row_idx b, Animate.col_idx b) <> (Animate.row_idx a, Animate.col_idx a)
     /\ Animate.facing b = Animate.facing a
     /\ Animate.score b = Animate.score a
     /\ Animate.row_idx (Animate.Agent_move (turn_around b)) = Animate.row_idx a
     /\ Animate.col_idx (Animate.Agent_move (turn_around b)) = Animate.col_idx a)
  /\ ((Animate.facing a < 0 \/ 7 < Animate.facing a)%Z -> Animate.Agent_move a = a).
Proof.
  destruct a as [r c f s]. simpl. split.
  - intros Hf. each_facing Hf; simpl;
      repeat split; try lia; intros [= ? ?]; lia.
  - intros Hf. unfold Animate.Agent_move. simpl.
    repeat match goal with
           | |- context [(f =? ?k)%Z] => destruct (Z.eqb_spec f k); [lia|]
           end.
    done.
Qed.

Lemma agent_move_neighbour_and_back_witness :
  Animate.row_idx
    (Animate.Agent_move (turn_around (Animate.Agent_move (Animate.Agent_init 40 25 0))))
  = 25%Z
  /\ Animate.col_idx
       (Animate.Agent_move (turn_around (Animate.Agent_move (Animate.Agent_init 40 25 0))))
     = 40%Z.
Proof.
  pose proof (proj1 (agent_move_neighbour_and_back (Animate.Agent_init 40 25 0))) as H.
  simpl in H. assert (0 <= 0 < 8)%Z as Hf by lia.
  destruct (H Hf) as (_ & _ & _ & _ & _ & Hr & Hc).
  split; [exact Hr | exact Hc].
Defined.

(** ** Subscripts that count from either end *)

Lemma subscript_nat {A} (l : list A) (i : Z) :
  (0 <= i)%Z -> subscript l i = getitem l (Z.to_nat i).
Proof.
  intros Hi. unfold subscript.
  destruct (Z.leb_spec 0 i); [|lia]. simpl.
  destruct (Z.ltb_spec i (Z.of_nat (length l))); [done|].
  destruct (Z.ltb_spec i 0); [lia|]. rewrite andb_false_r.
  rewrite getitem_None; [done|]. apply lookup_ge_None. lia.
Qed.

Lemma getitem_Ok {A} (l : list A) i x : getitem l i = Ok x -> l !! i = Some x.
Proof. unfold getitem. destruct (l !! i); [by intros [= ->]|done]. Qed.

(** Reading [l[i]] and then writing [l[i] = y] meet the same element,
    also for a negative [i]. *)
Lemma subscript_setitem {A} (l : list A) (i : Z) (x y : A) :
  subscript l i = Ok x ->
  exists j, l !! j = Some x
            /\ setitem l i y = Ok (<[j := y]> l)
            /\ subscript (<[j := y]> l) i = Ok y.
Proof.
  unfold subscript at 1. unfold setitem.
  destruct ((0 <=? i)%Z && (i <? Z.of_nat (length l))%Z) eqn:Hin.
  { intros H%getitem_Ok. exists (Z.to_nat i). repeat split; [done|].
    unfold subscript. rewrite length_insert, Hin.
    apply getitem_Some, list_lookup_insert_eq. by eapply lookup_lt_Some. }
  destruct ((- Z.of_nat (length l) <=? i)%Z && (i <? 0)%Z) eqn:Hneg; [|done].
  intros H%getitem_Ok. exists (Z.to_nat (Z.of_nat (length l) + i)).
  repeat split; [done|].
  unfold subscript. rewrite length_insert, Hin, Hneg.
  apply getitem_Some, list_lookup_insert_eq. by eapply lookup_lt_Some.
Qed.

Lemma subscript_raises {A} (l : list A) (i : Z) e :
  subscript l i = Raise e -> e = IndexError.
Proof.
  unfold subscript, getitem.
  repeat (destruct (_ && _)); repeat (destruct (_ !! _)); congruence.
Qed.

Lemma sum_list_with_insert {A} (f : A -> nat) (l : list A) j x y :
  l !! j = Some x ->
  sum_list_with f (<[j := y]> l) + f x = sum_list_with f l + f y.
Proof.
  revert j. induction l as [|z l IH]; intros [|j]; simpl; try done.
  - intros [= ->]. lia.
  - intros H. specialize (IH _ H). lia.
Qed.

Lemma filter_length_sum {A} (p : A -> bool) (l : list A) :
  length (List.filter p l) = sum_list_with (fun c => if p c then 1 else 0) l.
Proof. induction l as [|c l IH]; simpl; [done|]. destruct (p c); simpl; lia. Qed.

(** ** The animator *)

Lemma is_food_dot : Animate.is_food "." = false.
Proof. reflexivity. Qed.

(** What a successful [consume] did: nothing, or one food tile turned
    into [.] under the agent, one point more and one line printed; a
    second [consume] then does nothing. *)
Lemma consume_inv a a' out :
  Animate.consume a = Ok (a', out) ->
  (a' = a /\ out = [])
  \/ exists jr jc row tile,
       Animate.map_data a !! jr = Some row /\ row !! jc = Some tile
       /\ Animate.is_food tile = true
       /\ Animate.map_data a' = <[jr := <[jc := "."%char]> row]> (Animate.map_data a)
       /\ Animate.agent a'
          = {| Animate.row_idx := Animate.row_idx (Animate.agent a);
               Animate.col_idx := Animate.col_idx (Animate.agent a);
               Animate.facing := Animate.facing (Animate.agent a);
               Animate.score := Animate.score (Animate.agent a) + 1 |}
       /\ out = [(Animate.score (Animate.agent a) + 1)%Z]
       /\ Animate.consume a' = Ok (a', []).
Proof.
  unfold Animate.consume at 1.
  destruct (subscript (Animate.map_data a) _) as [row|] eqn:Hrow; simpl; [|done].
  destruct (subscript row _) as [tile|] eqn:Htile; simpl; [|done].
  destruct (Animate.is_food tile) eqn:Hfood; [|intros [= <- <-]; by left].
  destruct (subscript_setitem _ _ _ "."%char Htile) as (jc & Hjc & Hsetc & Hgetc).
  destruct (subscript_setitem _ _ _ (<[jc := "."%char]> row) Hrow)
    as (jr & Hjr & Hsetr & Hgetr).
  rewrite Hsetc. simpl. rewrite Hsetr. simpl.
  intros [= <- <-]. right. exists jr, jc, row, tile.
  repeat split; try done.
  unfold Animate.consume. simpl. rewrite Hgetr. simpl. rewrite Hgetc. done.
Qed.

Lemma consume_raises a e : Animate.consume a = Raise e -> e = IndexError.
Proof.
  unfold Animate.consume.
  destruct (subscript (Animate.map_data a) _) as [row|] eqn:Hrow; simpl;
    [|intros [= <-]; by eapply subscript_raises].
  destruct (subscript row _) as [tile|] eqn:Htile; simpl;
    [|intros [= <-]; by eapply subscript_raises].
  destruct (Animate.is_food tile); [|done].
  destruct (subscript_setitem _ _ _ "."%char Htile) as (jc & _ & -> & _).
  destruct (subscript_setitem _ _ _ (<[jc := "."%char]> row) Hrow) as (jr & _ & Hset & _).
  simpl. by rewrite Hset.
Qed.

Lemma consume_on_map a :
  Animate.on_map a -> exists a' out, Animate.consume a = Ok (a', out).
Proof.
  intros (row & Hr & Hc & Hrow & Hcol).
  destruct (lookup_lt_is_Some_2 row _ Hcol) as [tile Htile].
  destruct (Animate.consume a) as [[a' out]|e] eqn:Hcons; [by eauto|].
  exfalso. unfold Animate.consume in Hcons.
  rewrite (subscript_nat _ _ Hr), (getitem_Some _ _ _ Hrow) in Hcons. simpl in Hcons.
  pose proof (subscript_nat row _ Hc) as Hsub.
  rewrite (getitem_Some _ _ _ Htile) in Hsub. rewrite Hsub in Hcons. simpl in Hcons.
  destruct (Animate.is_food tile); [|done].
  destruct (subscript_setitem _ _ _ "."%char Hsub) as (jc & _ & Hsetc & _).
  assert (subscript (Animate.map_data a) (Animate.row_idx (Animate.agent a)) = Ok row)
    as Hsubr by (by rewrite subscript_nat, (getitem_Some _ _ _ Hrow)).
  destruct (subscript_setitem _ _ _ (<[jc := "."%char]> row) Hsubr) as (jr & _ & Hsetr & _).
  rewrite Hsetc in Hcons. simpl in Hcons. by rewrite Hsetr in Hcons.
Qed.

Lemma rectangular_insert h w m jr jc row (y : ascii) :
  Animate.rectangular h w m -> m !! jr = Some row ->
  Animate.rectangular h w (<[jr := <[jc := y]> row]> m).
Proof.
  intros [Hh Hw] Hrow. split; [by rewrite length_insert|].
  apply Forall_insert; [done|]. rewrite length_insert.
  rewrite Forall_forall in Hw. apply Hw. by eapply list_elem_of_lookup_2.
Qed.

Lemma consume_rectangular h w a a' out :
  Animate.consume a = Ok (a', out) ->
  Animate.rectangular h w (Animate.map_data a) ->
  Animate.rectangular h w (Animate.map_data a').
Proof.
  intros [[-> _] | (jr & jc & row & tile & Hrow & _ & _ & -> & _)]%consume_inv Hrect;
    [done|]. by apply rectangular_insert.
Qed.

Lemma consume_position a a' out :
  Animate.consume a = Ok (a', out) ->
  Animate.row_idx (Animate.agent a') = Animate.row_idx (Animate.agent a)
  /\ Animate.col_idx (Animate.agent a') = Animate.col_idx (Animate.agent a)
  /\ Animate.facing (Animate.agent a') = Animate.facing (Animate.agent a).
Proof.
  intros [[-> _] | (jr & jc & row & tile & _ & _ & _ & _ & -> & _)]%consume_inv; done.
Qed.

Lemma move_consume a r :
  Animate.move a = Ok r ->
  exists row0, Animate.map_data a !! 0 = Some row0
               /\ Animate.consume (clamped a (Z.of_nat (length row0))) = Ok r.
Proof.
  unfold Animate.move, Animate.get_map_width.
  destruct (getitem (Animate.map_data a) 0) as [row0|] eqn:Hrow0; simpl; [|done].
  intros H. exists row0. split; [by apply getitem_Ok|done].
Qed.

Lemma Agent_move_score ag : Animate.score (Animate.Agent_move ag) = Animate.score ag.
Proof.
  unfold Animate.Agent_move.
  repeat match goal with |- context [if ?b then _ else _] => destruct b end; done.
Qed.

Lemma Agent_move_facing ag : Animate.facing (Animate.Agent_move ag) = Animate.facing ag.
Proof.
  unfold Animate.Agent_move.
  repeat match goal with |- context [if ?b then _ else _] => destruct b end; done.
Qed.

Lemma rectangular_on_map h w a :
  Animate.rectangular h w (Animate.map_data a) ->
  (0 <= Animate.row_idx (Animate.agent a) < Z.of_nat h)%Z ->
  (0 <= Animate.col_idx (Animate.agent a) < Z.of_nat w)%Z ->
  Animate.on_map a.
Proof.
  intros [Hh Hw] Hr Hc.
  destruct (lookup_lt_is_Some_2 (Animate.map_data a)
              (Z.to_nat (Animate.row_idx (Animate.agent a)))) as [row Hrow]; [lia|].
  exists row. repeat split; [lia|lia|done|].
  rewrite Forall_forall in Hw. rewrite (Hw row); [lia|].
  by eapply list_elem_of_lookup_2.
Qed.

Lemma move_on_rectangular h w a :
  Animate.rectangular h w (Animate.map_data a) -> 0 < h -> 0 < w ->
  exists a' out,
    Animate.move a = Ok (a', out)
    /\ (0 <= Animate.row_idx (Animate.agent a') < Z.of_nat h)%Z
    /\ (0 <= Animate.col_idx (Animate.agent a') < Z.of_nat w)%Z
    /\ Animate.on_map a'
    /\ Animate.rectangular h w (Animate.map_data a').
Proof.
  intros Hrect Hh Hw. pose proof Hrect as [Hlen Hrows].
  destruct (lookup_lt_is_Some_2 (Animate.map_data a) 0) as [row0 Hrow0]; [lia|].
  assert (length row0 = w) as Hw0.
  { rewrite Forall_forall in Hrows. apply Hrows. by eapply list_elem_of_lookup_2. }
  assert (Animate.move a = Animate.consume (clamped a (Z.of_nat w))) as Hmove.
  { unfold Animate.move, Animate.get_map_width.
    rewrite (getitem_Some _ _ _ Hrow0). simpl. by rewrite Hw0. }
  assert ((0 <= Animate.row_idx (Animate.agent (clamped a (Z.of_nat w))) < Z.of_nat h)%Z
          /\ (0 <= Animate.col_idx (Animate.agent (clamped a (Z.of_nat w))) < Z.of_nat w)%Z)
    as [Hr Hc].
  { unfold clamped, Animate.get_map_height. simpl. lia. }
  destruct (consume_on_map (clamped a (Z.of_nat w))) as (a' & out & Hcons).
  { by eapply rectangular_on_map. }
  exists a', out. rewrite Hmove.
  destruct (consume_position _ _ _ Hcons) as (Hr' & Hc' & _).
  pose proof (consume_rectangular h w _ _ _ Hcons Hrect) as Hrect'.
  rewrite <- Hr' in Hr. rewrite <- Hc' in Hc.
  split; [done|]. split; [lia|]. split; [lia|].
  split; [by eapply rectangular_on_map|done].
Qed.

(** X4: on a map of [h] rows of [w] tiles each, with [h] and [w]
    positive, [move] raises nothing and leaves the agent on a tile of the
    map, wherever it stood and whatever it faced before; the map keeps
    its shape. *)
Theorem move_stays_on_map (h w : nat) (a : Animate.t) :
  Animate.rectangular h w (Animate.map_data a) -> 0 < h -> 0 < w ->
  exists a' out,
    Animate.move a = Ok (a', out)
    /\ (0 <= Animate.row_idx (Animate.agent a') < Z.of_nat h)%Z
    /\ (0 <= Animate.col_idx (Animate.agent a') < Z.of_nat w)%Z
    /\ Animate.on_map a'
    /\ Animate.rectangular h w (Animate.map_data a').
Proof. apply move_on_rectangular. Qed.

Lemma move_stays_on_map_witness :
  exists a' out,
    Animate.move {| Animate.map_data := Animate.load_map ["oN"; "E."];
                    Animate.agent := Animate.Agent_init 7 (-3) 3 |}
    = Ok (a', out)
    /\ (0 <= Animate.row_idx (Animate.agent a') < Z.of_nat 2)%Z
    /\ (0 <= Animate.col_idx (Animate.agent a') < Z.of_nat 2)%Z
    /\ Animate.on_map a'
    /\ Animate.rectangular 2 2 (Animate.map_data a').
Proof.
  apply (move_stays_on_map 2 2); [|lia|lia].
  split; [reflexivity|]. repeat constructor.
Defined.

Lemma process_move_rectangular h w s idx a :
  Animate.rectangular h w (Animate.map_data a) -> 0 < h -> 0 < w ->
  exists a' out,
    Animate.process_move s idx a = Ok (a', out)
    /\ Animate.rectangular h w (Animate.map_data a').
Proof.
  intros Hrect Hh Hw. unfold Animate.process_move, Py.len.
  destruct (Nat.ltb_spec idx (length (Py.chars s))) as [Hidx|]; [|by eauto].
  destruct (lookup_lt_is_Some_2 _ _ Hidx) as [c ->].
  destruct (Ascii.eqb c "R"); [by eauto|].
  destruct (Ascii.eqb c "L"); [by eauto|].
  destruct (Ascii.eqb c "M"); [|by eauto].
  destruct (move_on_rectangular h w a) as (a' & out & -> & _ & _ & _ & Hrect');
    by eauto.
Qed.

Lemma play_on_rectangular h w s idx n a :
  Animate.rectangular h w (Animate.map_data a) -> 0 < h -> 0 < w ->
  exists a' out,
    Animate.play s idx n a = Ok (a', out)
    /\ Animate.rectangular h w (Animate.map_data a').
Proof.
  intros Hrect Hh Hw. revert idx a Hrect.
  induction n as [|n IH]; intros idx a Hrect; simpl; [by eauto|].
  destruct (process_move_rectangular h w s idx a) as (a1 & o1 & -> & Hrect1);
    [done..|]. simpl.
  destruct (IH (S idx) a1 Hrect1) as (a2 & o2 & -> & Hrect2). simpl. by eauto.
Qed.

(** X5: on a map of [h] rows of [w] tiles each, with [h] and [w]
    positive, replaying any number of rounds of any movement string from
    any position raises nothing, and the map keeps its shape. *)
Theorem play_never_raises (h w : nat) (s : string) (idx n : nat) (a : Animate.t) :
  Animate.rectangular h w (Animate.map_data a) -> 0 < h -> 0 < w ->
  exists a' out,
    Animate.play s idx n a = Ok (a', out)
    /\ Animate.rectangular h w (Animate.map_data a').
Proof. apply play_on_rectangular. Qed.

Lemma play_never_raises_witness :
  exists a' out,
    Animate.play "MMRMLLMxM" 0 12
      {| Animate.map_data := Animate.load_map ["oN"; "E."];
         Animate.agent := Animate.Agent_init 0 0 3 |}
    = Ok (a', out)
    /\ Animate.rectangular 2 2 (Animate.map_data a').
Proof.
  apply (play_never_raises 2 2); [|lia|lia].
  split; [reflexivity|]. repeat constructor.
Defined.

(** ** Scores and food *)

Lemma harvest_log_refl a : harvest_log a a [].
Proof. unfold harvest_log. simpl. repeat split; lia. Qed.

Lemma harvest_log_agent a b a' out :
  Animate.map_data b = Animate.map_data a ->
  Animate.score (Animate.agent b) = Animate.score (Animate.agent a) ->
  harvest_log b a' out -> harvest_log a a' out.
Proof. unfold harvest_log. by intros -> ->. Qed.

Lemma harvest_log_trans a b c o1 o2 :
  harvest_log a b o1 -> harvest_log b c o2 -> harvest_log a c (o1 ++ o2).
Proof.
  unfold harvest_log. intros (Hf1 & Hs1 & Ho1) (Hf2 & Hs2 & Ho2).
  rewrite length_app. repeat split; [lia|lia|].
  rewrite seq_app, fmap_app. f_equal; [done|].
  rewrite Ho2 at 1. replace (1 + length o1) with (length o1 + 1) by lia.
  rewrite <- (fmap_add_seq (length o1) 1), <- list_fmap_compose.
  apply list_fmap_ext. intros _ k _. simpl. lia.
Qed.

Lemma consume_harvest a a' out :
  Animate.consume a = Ok (a', out) -> harvest_log a a' out.
Proof.
  intros [[-> ->] | (jr & jc & row & tile & Hrow & Htile & Hfood & Hmap & Hag & -> & _)]%consume_inv;
    [apply harvest_log_refl|].
  unfold harvest_log. rewrite Hmap, Hag. simpl.
  split; [|split; [lia|f_equal; lia]].
  unfold Animate.food_left.
  pose proof (sum_list_with_insert
                (fun row => length (List.filter Animate.is_food row))
                _ _ _ (<[jc := "."%char]> row) Hrow) as Hm.
  pose proof (sum_list_with_insert
                (fun c => if Animate.is_food c then 1 else 0)
                _ _ _ "."%char Htile) as Hr.
  rewrite <- !filter_length_sum in Hr. rewrite Hfood in Hr. simpl in Hr, Hm. lia.
Qed.

Lemma move_harvest a a' out :
  Animate.move a = Ok (a', out) -> harvest_log a a' out.
Proof.
  intros (row0 & _ & Hcons)%move_consume.
  apply consume_harvest in Hcons.
  eapply harvest_log_agent; [| |exact Hcons]; [done|].
  simpl. apply Agent_move_score.
Qed.

Lemma harvest_log_turn a b :
  Animate.map_data b = Animate.map_data a ->
  Animate.score (Animate.agent b) = Animate.score (Animate.agent a) ->
  harvest_log a b [].
Proof. unfold harvest_log. intros -> ->. simpl. repeat split; lia. Qed.

Lemma process_move_harvest s idx a a' out :
  Animate.process_move s idx a = Ok (a', out) -> harvest_log a a' out.
Proof.
  unfold Animate.process_move.
  destruct (idx <? Py.len s)%nat; [|intros [= <- <-]; apply harvest_log_refl].
  destruct (Py.chars s !! idx) as [c|]; [|done].
  destruct (Ascii.eqb c "R"); [intros [= <- <-]; by apply harvest_log_turn|].
  destruct (Ascii.eqb c "L"); [intros [= <- <-]; by apply harvest_log_turn|].
  destruct (Ascii.eqb c "M"); [apply move_harvest|].
  intros [= <- <-]; apply harvest_log_refl.
Qed.

Lemma play_harvest s idx n a a' out :
  Animate.play s idx n a = Ok (a', out) -> harvest_log a a' out.
Proof.
  revert idx a a' out. induction n as [|n IH]; intros idx a a' out; simpl.
  - intros [= <- <-]. apply harvest_log_refl.
  - destruct (Animate.process_move s idx a) as [[a1 o1]|] eqn:H1; simpl; [|done].
    destruct (Animate.play s (S idx) n a1) as [[a2 o2]|] eqn:H2; simpl; [|done].
    intros [= <- <-]. eapply harvest_log_trans.
    + by eapply process_move_harvest.
    + by eapply IH.
Qed.

(** X6: over any replay that completes, the score plus the number of
    [N] and [E] tiles left on the map stays the same, the score grows by
    the number of lines printed, and the lines printed are the successive
    scores. *)
Theorem score_plus_food_constant (s : string) (idx n : nat) (a a' : Animate.t)
    (out : list Z) :
  Animate.play s idx n a = Ok (a', out) -> harvest_log a a' out.
Proof. apply play_harvest. Qed.

Lemma score_plus_food_constant_witness :
  harvest_log
    {| Animate.map_data := Animate.load_map ["oN"; "E."];
       Animate.agent := Animate.Agent_init 0 0 3 |}
    {| Animate.map_data := Animate.load_map ["o."; ".."];
       Animate.agent := {| Animate.row_idx := 1; Animate.col_idx := 0;
                           Animate.facing := 6; Animate.score := 2 |} |}
    [1%Z; 2%Z].
Proof.
  apply (score_plus_food_constant "MRRRM" 0 5). vm_compute. reflexivity.
Defined.



(** ** The start tile and the colours *)

Lemma consume_needs_tile a r :
  (0 <= Animate.row_idx (Animate.agent a))%Z ->
  (0 <= Animate.col_idx (Animate.agent a))%Z ->
  Animate.consume a = Ok r -> Animate.on_map a.
Proof.
  intros Hr Hc. unfold Animate.consume.
  rewrite (subscript_nat _ _ Hr).
  destruct (getitem (Animate.map_data a) _) as [row|] eqn:Hrow; simpl; [|done].
  rewrite (subscript_nat _ _ Hc).
  destruct (getitem row _) as [tile|] eqn:Htile; simpl; [|done].
  intros _. exists row. apply getitem_Ok in Hrow, Htile.
  repeat split; [done..|]. by eapply lookup_lt_Some.
Qed.

(** X8: the constructor, which puts the agent at column 40 of row 25
    and lets it consume, completes exactly when the map file has a line
    26 with at least 41 tiles once stripped; otherwise it raises
    [IndexError]. *)
Theorem init_needs_start_tile (lines : list string) :
  (is_Ok (Animate.init lines) = true
   <-> exists row, Animate.load_map lines !! 25 = Some row /\ 40 < length row)
  /\ (forall e, Animate.init lines = Raise e -> e = IndexError).
Proof.
  split; [split|].
  - unfold Animate.init. destruct (Animate.consume _) as [r|] eqn:Hcons; [|done].
    intros _. apply consume_needs_tile in Hcons as (row & _ & _ & Hrow & Hcol);
      [|simpl; lia..].
    exists row. split; [exact Hrow | exact Hcol].
  - intros (row & Hrow & Hlen). unfold Animate.init.
    destruct (consume_on_map
                {| Animate.map_data := Animate.load_map lines;
                   Animate.agent := Animate.Agent_init 40 25 3 |})
      as (a' & out & ->); [|done].
    exists row. repeat split; [simpl; lia..|exact Hrow|exact Hlen].
  - intros e. apply consume_raises.
Qed.

Lemma color_map_known c :
  is_Ok (Animate.color_map c) = true
  <-> c ∈ ["o"%char; "E"%char; "N"%char; "."%char].
Proof.
  unfold Animate.color_map. rewrite !elem_of_cons, elem_of_nil.
  destruct (Ascii.eqb_spec c "o"); [by intuition|].
  destruct (Ascii.eqb_spec c "E"); [by intuition|].
  destruct (Ascii.eqb_spec c "N"); [by intuition|].
  destruct (Ascii.eqb_spec c "."); [by intuition|].
  simpl. intuition congruence.
Qed.

Lemma get_color_on_map a r c row tile :
  (0 <= r)%Z -> (0 <= c)%Z ->
  Animate.map_data a !! Z.to_nat r = Some row -> row !! Z.to_nat c = Some tile ->
  Animate.get_color a r c = Animate.color_map tile.
Proof.
  intros Hr Hc Hrow Htile. unfold Animate.get_color.
  rewrite (subscript_nat _ _ Hr), (getitem_Some _ _ _ Hrow). simpl.
  by rewrite (subscript_nat _ _ Hc), (getitem_Some _ _ _ Htile).
Qed.

Lemma consume_known_tiles a a' out :
  known_tiles (Animate.map_data a) ->
  Animate.consume a = Ok (a', out) ->
  known_tiles (Animate.map_data a').
Proof.
  intros Hknown
    [[-> _] | (jr & jc & row & tile & Hrow & _ & _ & -> & _)]%consume_inv; [done|].
  apply Forall_insert; [done|]. apply Forall_insert; [|done].
  unfold known_tiles in Hknown. rewrite Forall_forall in Hknown.
  apply Hknown. by eapply list_elem_of_lookup_2.
Qed.

(** X9: [get_color] finds a colour for a tile of the map exactly when
    the tile is one of [o], [E], [N] and [.], and raises [KeyError] for
    any other; and a [move] that completes on a map of such tiles leaves
    a map of such tiles. *)
Theorem tiles_keep_their_colours :
  (forall a r c row tile,
      (0 <= r)%Z -> (0 <= c)%Z ->
      Animate.map_data a !! Z.to_nat r = Some row -> row !! Z.to_nat c = Some tile ->
      (tile ∈ ["o"%char; "E"%char; "N"%char; "."%char]
       -> is_Ok (Animate.get_color a r c) = true)
      /\ (tile ∉ ["o"%char; "E"%char; "N"%char; "."%char]
          -> Animate.get_color a r c = Raise KeyError))
  /\ (forall a a' out,
        known_tiles (Animate.map_data a) ->
        Animate.move a = Ok (a', out) ->
        known_tiles (Animate.map_data a')).
Proof.
  split.
  - intros a r c row tile Hr Hc Hrow Htile.
    rewrite (get_color_on_map a r c row tile) by done.
    split; [by intros H%color_map_known|].
    intros Hnot. destruct (Animate.color_map tile) as [col|e] eqn:Hcol.
    + exfalso. apply Hnot, color_map_known. by rewrite Hcol.
    + unfold Animate.color_map in Hcol.
      repeat (destruct (Ascii.eqb tile _); [done|]). congruence.
  - intros a a' out Hknown (row0 & _ & Hcons)%move_consume.
    by eapply (consume_known_tiles (clamped a (Z.of_nat (length row0)))).
Qed.

Lemma tiles_keep_their_colours_witness :
  Animate.get_color
    {| Animate.map_data := Animate.load_map ["oN"; "E#"];
       Animate.agent := Animate.Agent_init 0 0 3 |} 1 1
  = Raise KeyError.
Proof.
  refine (proj2 (proj1 tiles_keep_their_colours
                   {| Animate.map_data := Animate.load_map ["oN"; "E#"];
                      Animate.agent := Animate.Agent_init 0 0 3 |}
                   1%Z 1%Z (Py.chars "E#") "#"%char _ _ _ _) _);
    [lia | lia | reflexivity | reflexivity |].
  rewrite !elem_of_cons, elem_of_nil. intros [H|[H|[H|[H|[]]]]]; discriminate H.
Defined.

(** ** The movement file *)

Lemma chars_append s1 s2 : Py.chars (s1 ++ s2)%string = Py.chars s1 ++ Py.chars s2.
Proof. induction s1 as [|c s1 IH]; simpl; [done|]. unfold Py.chars in *. by rewrite IH. Qed.

Lemma load_movement_step (output_str line : string) (k : nat) :
  Forall (fun c => c ∈ ["M"%char; "R"%char; "L"%char]) (Py.chars output_str) ->
  Py.len output_str <= k ->
  Forall (fun c => c ∈ ["M"%char; "R"%char; "L"%char])
    (Py.chars (Animate.movement_step output_str line))
  /\ Py.len (Animate.movement_step output_str line) <= S k.
Proof.
  intros Hall Hlen. unfold Animate.movement_step, Py.len in *.
  assert (forall c, c ∈ ["M"%char; "R"%char; "L"%char] ->
            Forall (fun c => c ∈ ["M"%char; "R"%char; "L"%char])
              (Py.chars (output_str ++ String c "")%string)
            /\ length (Py.chars (output_str ++ String c "")%string) <= S k) as Hadd.
  { intros c Hc. rewrite chars_append, length_app. simpl.
    split; [|lia]. apply Forall_app. split; [done|]. by constructor. }
  destruct (_ =? 0)%nat; [split; [done|lia]|].
  destruct (_ <? 2)%nat; [split; [done|lia]|].
  destruct (_ !! 1) as [part1|]; [|split; [done|lia]].
  destruct (String.eqb part1 "move"); [apply Hadd; repeat constructor|].
  destruct (String.eqb part1 "rot_right"); [apply Hadd; repeat constructor|].
  destruct (String.eqb part1 "rot_left"); [apply Hadd; repeat constructor|].
  split; [done|lia].
Qed.

(** X10: the string that [load_movement_file] returns holds no
    character but [M], [R] and [L], and at most one for each line of the
    file. *)
Theorem movement_string_alphabet (lines : list string) :
  Forall (fun c => c ∈ ["M"%char; "R"%char; "L"%char])
    (Py.chars (Animate.load_movement_file lines))
  /\ Py.len (Animate.load_movement_file lines) <= length lines.
Proof.
  unfold Animate.load_movement_file.
  assert (forall acc k,
            Forall (fun c => c ∈ ["M"%char; "R"%char; "L"%char]) (Py.chars acc) ->
            Py.len acc <= k ->
            Forall (fun c => c ∈ ["M"%char; "R"%char; "L"%char])
              (Py.chars (fold_left Animate.movement_step lines acc))
            /\ Py.len (fold_left Animate.movement_step lines acc) <= k + length lines) as Hgen.
  2:{ apply (Hgen ""%string 0); [constructor|done]. }
  induction lines as [|line lines IH]; intros acc k Hall Hlen; simpl.
  - split; [done|lia].
  - destruct (load_movement_step acc line k Hall Hlen) as [Hall' Hlen'].
    destruct (IH _ (S k) Hall' Hlen') as [H1 H2]. split; [exact H1|lia].
Qed.

(** ** Replaying past the end *)

Lemma play_past_end s idx n a :
  Py.len s <= idx -> Animate.play s idx n a = Ok (a, []).
Proof.
  revert idx. induction n as [|n IH]; intros idx Hidx; simpl; [done|].
  unfold Animate.process_move.
  destruct (Nat.ltb_spec idx (Py.len s)); [lia|]. simpl.
  rewrite IH by lia. done.
Qed.

Lemma play_add s idx n1 n2 a :
  Animate.play s idx (n1 + n2) a
  = r1 ← Animate.play s idx n1 a;
    r2 ← Animate.play s (idx + n1) n2 r1.1;
    Ok (r2.1, r1.2 ++ r2.2).
Proof.
  revert idx a. induction n1 as [|n1 IH]; intros idx a; simpl.
  - rewrite Nat.add_0_r. destruct (Animate.play s idx n2 a) as [[a2 o2]|]; done.
  - destruct (Animate.process_move s idx a) as [[a1 o1]|]; simpl; [|done].
    rewrite IH. replace (idx + S n1) with (S idx + n1) by lia.
    destruct (Animate.play s (S idx) n1 a1) as [[a2 o2]|]; [|done].
    cbn [mbind result_bind fst snd].
    destruct (Animate.play s (S idx + n1) n2 a2) as [[a3 o3]|]; [|done].
    cbn [mbind result_bind fst snd]. by rewrite app_assoc.
Qed.

(** X11: once the movement string is used up a round does nothing, so
    any number of rounds from the start that is at least the length of
    the string gives what exactly that many rounds give. *)
Theorem play_stops_at_end (s : string) (n : nat) (a : Animate.t) :
  Py.len s <= n ->
  Animate.play s 0 n a = Animate.play s 0 (Py.len s) a.
Proof.
  intros Hn. replace n with (Py.len s + (n - Py.len s)) at 1 by lia.
  rewrite play_add.
  destruct (Animate.play s 0 (Py.len s) a) as [[a1 o1]|]; simpl; [|done].
  rewrite play_past_end by lia. simpl. by rewrite app_nil_r.
Qed.

Lemma play_stops_at_end_witness :
  Animate.play "MR" 0 5
    {| Animate.map_data := Animate.load_map ["oN"; "E."];
       Animate.agent := Animate.Agent_init 0 0 3 |}
  = Animate.play "MR" 0 (Py.len "MR")
      {| Animate.map_data := Animate.load_map ["oN"; "E."];
         Animate.agent := Animate.Agent_init 0 0 3 |}.
Proof. apply (play_stops_at_end "MR" 5). vm_compute. lia. Defined.

(** ** The playback cursor of [trace_ref.py] *)

Lemma viewer_eta v :
  Viewer.set_step v (Viewer.org_step v) = v.
Proof. by destruct v. Qed.

Lemma steps_on v seq :
  cursor_on v seq -> Viewer.steps v = Ok (Z.of_nat (length seq)).
Proof.
  intros (Hidx & Hseq & _). unfold Viewer.steps.
  by rewrite (subscript_nat _ _ Hidx), (getitem_Some _ _ _ Hseq).
Qed.

Lemma cursor_on_set_step v seq step :
  cursor_on v seq -> (0 <= step < Z.of_nat (length seq))%Z ->
  cursor_on (Viewer.set_step v step) seq.
Proof.
  intros (Hidx & Hseq & _) Hstep. unfold cursor_on. simpl.
  repeat split; (done || lia).
Qed.

Lemma step_forward_on v seq :
  cursor_on v seq ->
  Viewer.step_forward v
  = Ok (Viewer.set_step v ((Viewer.org_step v + 1) mod Z.of_nat (length seq))%Z).
Proof.
  intros Hon. pose proof Hon as (_ & _ & Hstep).
  unfold Viewer.step_forward. rewrite (steps_on _ _ Hon). simpl. do 2 f_equal.
  destruct (Z.leb_spec (Z.of_nat (length seq)) (Viewer.org_step v + 1)).
  - replace (Viewer.org_step v + 1)%Z with (Z.of_nat (length seq)) by lia.
    by rewrite Z.mod_same by lia.
  - by rewrite Z.mod_small by lia.
Qed.

Lemma step_back_on v seq :
  cursor_on v seq ->
  Viewer.step_back v
  = Ok (Viewer.set_step v ((Viewer.org_step v - 1) mod Z.of_nat (length seq))%Z).
Proof.
  intros Hon. pose proof Hon as (_ & _ & Hstep).
  unfold Viewer.step_back.
  destruct (Z.ltb_spec (Viewer.org_step v - 1) 0).
  - rewrite (steps_on _ _ Hon). simpl. do 2 f_equal.
    replace (Viewer.org_step v - 1)%Z with (-1)%Z by lia.
    apply Z.mod_unique with (q := (-1)%Z); lia.
  - by rewrite Z.mod_small by lia.
Qed.

Lemma cursor_on_set_org v idx seq :
  (0 <= idx)%Z -> Viewer.org_states v !! Z.to_nat idx = Some seq -> seq <> [] ->
  cursor_on (Viewer.set_org v idx) seq.
Proof.
  intros Hidx Hseq Hne. repeat split; simpl; [done..|].
  destruct seq; [done|]. simpl. lia.
Qed.

Lemma set_org_in_range v idx :
  all_recorded (Viewer.org_states v) ->
  (0 <= idx < Z.of_nat (length (Viewer.org_states v)))%Z ->
  cursor_in_range (Viewer.set_org v idx).
Proof.
  intros Hall Hidx.
  destruct (lookup_lt_is_Some_2 (Viewer.org_states v) (Z.to_nat idx)) as [seq Hseq];
    [lia|].
  exists seq. apply cursor_on_set_org; [lia|done|].
  unfold all_recorded in Hall. rewrite Forall_forall in Hall.
  apply Hall. by eapply list_elem_of_lookup_2.
Qed.

Lemma cursor_org_bound v :
  cursor_in_range v ->
  (0 <= Viewer.org_idx v < Z.of_nat (length (Viewer.org_states v)))%Z.
Proof. intros (seq & Hidx & Hseq%lookup_lt_Some & _). lia. Qed.

Lemma handle_in_range v evt :
  all_recorded (Viewer.org_states v) -> cursor_in_range v ->
  exists v', Viewer.handle v evt = Ok v'
             /\ cursor_in_range v'
             /\ Viewer.org_states v' = Viewer.org_states v.
Proof.
  intros Hall Hin. pose proof (cursor_org_bound _ Hin) as Hb.
  pose proof Hin as (seq & Hon). pose proof Hon as (_ & _ & Hstep).
  assert (exists v', Viewer.step_forward v = Ok v' /\ cursor_in_range v'
                     /\ Viewer.org_states v' = Viewer.org_states v) as Hfwd.
  { rewrite (step_forward_on _ _ Hon). eexists. split; [done|]. split; [|done].
    exists seq. apply cursor_on_set_step; [done|]. apply Z.mod_pos_bound. lia. }
  assert (exists v', Viewer.step_back v = Ok v' /\ cursor_in_range v'
                     /\ Viewer.org_states v' = Viewer.org_states v) as Hbwd.
  { rewrite (step_back_on _ _ Hon). eexists. split; [done|]. split; [|done].
    exists seq. apply cursor_on_set_step; [done|]. apply Z.mod_pos_bound. lia. }
  assert (exists v', Ok (Viewer.org_back v) = Ok v' /\ cursor_in_range v'
                     /\ Viewer.org_states v' = Viewer.org_states v) as Hup.
  { eexists. split; [done|]. split; [|done]. unfold Viewer.org_back.
    apply set_org_in_range; [done|].
    destruct (Z.ltb_spec (Viewer.org_idx v - 1) 0); lia. }
  assert (exists v', Ok (Viewer.org_forward v) = Ok v' /\ cursor_in_range v'
                     /\ Viewer.org_states v' = Viewer.org_states v) as Hdown.
  { eexists. split; [done|]. split; [|done]. unfold Viewer.org_forward.
    apply set_org_in_range; [done|].
    destruct (Z.leb_spec (Z.of_nat (length (Viewer.org_states v))) (Viewer.org_idx v + 1));
      lia. }
  destruct evt as [|k|]; simpl; [by eauto| |by eauto].
  destruct k; by eauto.
Qed.

Lemma events_in_range v events :
  all_recorded (Viewer.org_states v) -> cursor_in_range v ->
  exists v', foldM Viewer.handle v events = Ok v'
             /\ cursor_in_range v'
             /\ Viewer.org_states v' = Viewer.org_states v.
Proof.
  revert v. induction events as [|evt events IH]; intros v Hall Hin; simpl;
    [by eauto|].
  destruct (handle_in_range v evt Hall Hin) as (v1 & -> & Hin1 & Hst1). simpl.
  destruct (IH v1) as (v2 & -> & Hin2 & Hst2); [by rewrite Hst1|done|].
  exists v2. by rewrite Hst2, Hst1.
Qed.

Lemma update_in_range v events :
  all_recorded (Viewer.org_states v) -> cursor_in_range v ->
  exists v', Viewer.update v events = Ok v'
             /\ cursor_in_range v'
             /\ Viewer.org_states v' = Viewer.org_states v.
Proof.
  intros Hall Hin. unfold Viewer.update.
  destruct (events_in_range v events Hall Hin) as (v1 & -> & Hin1 & Hst1). simpl.
  destruct (Viewer.is_paused v1); simpl; [by eauto|].
  destruct Hin1 as (seq & Hon). rewrite (step_forward_on _ _ Hon).
  eexists. split; [done|]. split; [|done].
  exists seq. apply cursor_on_set_step; [done|].
  apply Z.mod_pos_bound. destruct Hon as (_ & _ & ?). lia.
Qed.

Lemma frames_in_range v frames :
  all_recorded (Viewer.org_states v) -> cursor_in_range v ->
  exists v', foldM Viewer.update v frames = Ok v'
             /\ cursor_in_range v'
             /\ Viewer.org_states v' = Viewer.org_states v.
Proof.
  revert v. induction frames as [|events frames IH]; intros v Hall Hin; simpl;
    [by eauto|].
  destruct (update_in_range v events Hall Hin) as (v1 & -> & Hin1 & Hst1). simpl.
  destruct (IH v1) as (v2 & -> & Hin2 & Hst2); [by rewrite Hst1|done|].
  exists v2. by rewrite Hst2, Hst1.
Qed.

(** X12: when every organism of the store has at least one snapshot
    and the cursor points at a recorded snapshot, [update] raises nothing
    whatever the events of the frame, leaves the store as it is, and
    leaves the cursor on a recorded snapshot. *)
Theorem update_keeps_cursor (v : Viewer.t) (events : list Viewer.event) :
  all_recorded (Viewer.org_states v) -> cursor_in_range v ->
  exists v', Viewer.update v events = Ok v'
             /\ cursor_in_range v'
             /\ Viewer.org_states v' = Viewer.org_states v.
Proof. apply update_in_range. Qed.

Lemma update_keeps_cursor_witness :
  exists v',
    Viewer.update (Viewer.start [[mabe_example_state]; [avida_example_state]])
      [Viewer.KEYDOWN Viewer.K_DOWN; Viewer.KEYDOWN Viewer.K_LEFT;
       Viewer.KEYDOWN Viewer.K_SPACE]
    = Ok v'
    /\ cursor_in_range v'
    /\ Viewer.org_states v'
       = Viewer.org_states (Viewer.start [[mabe_example_state]; [avida_example_state]]).
Proof.
  apply update_keeps_cursor.
  - repeat constructor; done.
  - exists [mabe_example_state]. repeat split; simpl; lia.
Defined.

(** X13: with the cursor on a recorded snapshot, the right-arrow key
    followed by the left-arrow key, and the left-arrow key followed by
    the right-arrow key, leave the viewer as it was; the up-arrow key
    followed by the down-arrow key, in either order, comes back to the
    same organism, at step 0. *)
Theorem arrow_keys_undo (v : Viewer.t) (seq : list OrgState.t) :
  cursor_on v seq ->
  foldM Viewer.handle v [Viewer.KEYDOWN Viewer.K_RIGHT; Viewer.KEYDOWN Viewer.K_LEFT]
  = Ok v
  /\ foldM Viewer.handle v [Viewer.KEYDOWN Viewer.K_LEFT; Viewer.KEYDOWN Viewer.K_RIGHT]
     = Ok v
  /\ foldM Viewer.handle v [Viewer.KEYDOWN Viewer.K_UP; Viewer.KEYDOWN Viewer.K_DOWN]
     = Ok (Viewer.set_org v (Viewer.org_idx v))
  /\ foldM Viewer.handle v [Viewer.KEYDOWN Viewer.K_DOWN; Viewer.KEYDOWN Viewer.K_UP]
     = Ok (Viewer.set_org v (Viewer.org_idx v)).
Proof.
  intros Hon. pose proof Hon as (Hidx & Hseq & Hstep).
  pose proof (lookup_lt_Some _ _ _ Hseq) as Hlen.
  assert (0 < Z.of_nat (length seq))%Z as Hn by lia.
  split; [|split; [|split]]; simpl.
  - rewrite (step_forward_on _ _ Hon). simpl.
    erewrite step_back_on by (apply cursor_on_set_step; [done|by apply Z.mod_pos_bound]).
    simpl. rewrite Zminus_mod_idemp_l.
    replace (Viewer.org_step v + 1 - 1)%Z with (Viewer.org_step v) by lia.
    rewrite (Z.mod_small (Viewer.org_step v)) by lia. by destruct v.
  - rewrite (step_back_on _ _ Hon). simpl.
    erewrite step_forward_on by (apply cursor_on_set_step; [done|by apply Z.mod_pos_bound]).
    simpl. rewrite Zplus_mod_idemp_l.
    replace (Viewer.org_step v - 1 + 1)%Z with (Viewer.org_step v) by lia.
    rewrite (Z.mod_small (Viewer.org_step v)) by lia. by destruct v.
  - unfold Viewer.org_forward, Viewer.org_back, Viewer.set_org. simpl. do 2 f_equal.
    repeat match goal with
           | |- context [(?a <? ?b)%Z] => destruct (Z.ltb_spec a b)
           | |- context [(?a <=? ?b)%Z] => destruct (Z.leb_spec a b)
           end; lia.
  - unfold Viewer.org_forward, Viewer.org_back, Viewer.set_org. simpl. do 2 f_equal.
    destruct (Z.leb_spec (Z.of_nat (length (Viewer.org_states v))) (Viewer.org_idx v + 1));
      match goal with
      | |- context [(?a <? ?b)%Z] => destruct (Z.ltb_spec a b)
      end; lia.
Qed.

Lemma arrow_keys_undo_witness :
  foldM Viewer.handle (Viewer.start [[mabe_example_state; avida_example_state]])
    [Viewer.KEYDOWN Viewer.K_LEFT; Viewer.KEYDOWN Viewer.K_RIGHT]
  = Ok (Viewer.start [[mabe_example_state; avida_example_state]]).
Proof.
  apply (arrow_keys_undo _ [mabe_example_state; avida_example_state]).
  repeat split; simpl; lia.
Defined.

Lemma idle_steps v seq k :
  Viewer.is_paused v = false -> cursor_on v seq ->
  Viewer.idle k v
  = Ok (Viewer.set_step v
          ((Viewer.org_step v + Z.of_nat k) mod Z.of_nat (length seq))%Z).
Proof.
  revert v. induction k as [|k IH]; intros v Hplay Hon.
  - simpl. pose proof Hon as (_ & _ & Hstep).
    rewrite Z.add_0_r, Z.mod_small by lia. by rewrite viewer_eta.
  - pose proof Hon as (_ & _ & Hstep).
    cbn [Viewer.idle]. unfold Viewer.update. cbn [foldM mbind result_bind].
    rewrite Hplay. cbn [negb]. rewrite (step_forward_on _ _ Hon).
    cbn [mbind result_bind]. rewrite IH; [|done|].
    2:{ apply cursor_on_set_step; [done|]. apply Z.mod_pos_bound. lia. }
    simpl. do 2 f_equal. rewrite Zplus_mod_idemp_l. f_equal. lia.
Qed.

(** X14: while the viewer is not paused and the cursor is on a
    recorded snapshot, [k] frames without events move the step forward by
    [k] around the steps of the organism; as many frames as the organism
    has steps bring the viewer back to where it was. *)
Theorem idle_goes_round (v : Viewer.t) (seq : list OrgState.t) (k : nat) :
  Viewer.is_paused v = false -> cursor_on v seq ->
  Viewer.idle k v
  = Ok (Viewer.set_step v
          ((Viewer.org_step v + Z.of_nat k) mod Z.of_nat (length seq))%Z)
  /\ Viewer.idle (length seq) v = Ok v.
Proof.
  intros Hplay Hon. split; [by apply idle_steps|].
  rewrite (idle_steps v seq) by done. pose proof Hon as (_ & _ & Hstep).
  rewrite <- Zplus_mod_idemp_r, Z.mod_same, Z.add_0_r, Z.mod_small by lia.
  by rewrite viewer_eta.
Qed.

Lemma idle_goes_round_witness :
  Viewer.idle 2
    (Viewer.set_paused (Viewer.start [[mabe_example_state; avida_example_state]]) false)
  = Ok (Viewer.set_paused
          (Viewer.start [[mabe_example_state; avida_example_state]]) false).
Proof.
  apply (proj2 (idle_goes_round
                  (Viewer.set_paused
                     (Viewer.start [[mabe_example_state; avida_example_state]]) false)
                  [mabe_example_state; avida_example_state] 0 eq_refl
                  ltac:(repeat split; simpl; lia))).
Defined.

(** ** The text of the heads and of the registers *)

Lemma dict_get_in_keys d k v : Dict.get d k = Some v -> k ∈ Dict.keys d.
Proof.
  induction d as [|[k' v'] d IH]; simpl; [done|].
  destruct (String.eqb_spec k' k) as [->|_]; [intros _; by left|].
  intros H. right. by apply IH.
Qed.

Lemma dict_item_keys d k : is_Ok (dict_item d k) = true <-> k ∈ Dict.keys d.
Proof.
  unfold dict_item. split.
  - destruct (Dict.get d k) eqn:Hget; [|done]. intros _. by eapply dict_get_in_keys.
  - intros [v ->]%dict_get_keys. done.
Qed.

(** X15: for a cursor on a snapshot, [render_heads] completes exactly
    when the snapshot has all four heads IP, RH, WH and FH; it then draws
    four lines and returns the position 120 below the one it was given;
    otherwise it raises [KeyError]. *)
Theorem render_heads_needs_four_heads (v : Viewer.t) (x y : Z) (state : OrgState.t) :
  Viewer.current v = Ok state ->
  (is_Ok (Viewer.render_heads v x y) = true
   <-> forall h, h ∈ ["IP"; "RH"; "WH"; "FH"] -> h ∈ Dict.keys (OrgState.heads state))
  /\ (forall out pos, Viewer.render_heads v x y = Ok (out, pos) ->
        pos = (x, (y + 120)%Z) /\ length out = 4)
  /\ (forall e, Viewer.render_heads v x y = Raise e -> e = KeyError).
Proof.
  intros Hcur. unfold Viewer.render_heads. rewrite Hcur. cbn [mbind result_bind foldM].
  assert (forall h, dict_item (OrgState.heads state) h = Raise KeyError ->
            h ∈ ["IP"; "RH"; "WH"; "FH"] ->
            ~ (forall h, h ∈ ["IP"; "RH"; "WH"; "FH"] ->
                 h ∈ Dict.keys (OrgState.heads state))) as Hmiss.
  { intros h Hh Hin Hall. apply Hall, dict_item_keys in Hin. by rewrite Hh in Hin. }
  assert (forall h, dict_item (OrgState.heads state) h = Raise KeyError
                    \/ exists val, dict_item (OrgState.heads state) h = Ok val) as Hcase.
  { intros h. unfold dict_item. destruct (Dict.get _ h); eauto. }
  destruct (Hcase "IP") as [Hip | [ip Hip]]; rewrite Hip; cbn [mbind result_bind].
  { split; [split; [done|]|split; [done|congruence]].
    intros Hall. exfalso. apply (Hmiss "IP"); [done|repeat constructor|done]. }
  destruct (Hcase "RH") as [Hrh | [rh Hrh]]; rewrite Hrh; cbn [mbind result_bind].
  { split; [split; [done|]|split; [done|congruence]].
    intros Hall. exfalso. apply (Hmiss "RH"); [done|repeat constructor|done]. }
  destruct (Hcase "WH") as [Hwh | [wh Hwh]]; rewrite Hwh; cbn [mbind result_bind].
  { split; [split; [done|]|split; [done|congruence]].
    intros Hall. exfalso. apply (Hmiss "WH"); [done|repeat constructor|done]. }
  destruct (Hcase "FH") as [Hfh | [fh Hfh]]; rewrite Hfh; cbn [mbind result_bind].
  { split; [split; [done|]|split; [done|congruence]].
    intros Hall. exfalso. apply (Hmiss "FH"); [done|repeat constructor|done]. }
  split; [split; [|done]|split; [|done]].
  - intros _ h Hh. apply dict_item_keys.
    repeat (apply elem_of_cons in Hh as [->|Hh]; [by rewrite ?Hip, ?Hrh, ?Hwh, ?Hfh|]).
    by apply elem_of_nil in Hh.
  - intros out pos [= <- <-]. simpl. split; [f_equal; lia|done].
Qed.

Lemma render_heads_needs_four_heads_witness :
  is_Ok (Viewer.render_heads (Viewer.start [[avida_example_state]]) 50 390) = true
  /\ is_Ok (Viewer.render_heads (Viewer.start [[mabe_example_state]]) 50 390) = false.
Proof.
  split.
  - apply (proj1 (render_heads_needs_four_heads
                    (Viewer.start [[avida_example_state]]) 50 390
                    avida_example_state eq_refl)).
    intros h Hh.
    repeat (apply elem_of_cons in Hh as [->|Hh]; [repeat constructor|]).
    by apply elem_of_nil in Hh.
  - reflexivity.
Defined.

Lemma reg_lines_loop regs x len start acc y :
  start + len <= length regs ->
  exists out,
    foldM (reg_line regs x) (acc, y) (seq start len)
    = Ok (acc ++ out, (y + 30 * Z.of_nat len)%Z)
    /\ length out = len
    /\ forall i value, i < len -> regs !! (start + i) = Some value ->
         out !! i
         = Some (("Reg " ++ py_str (Z.of_nat (start + i)) ++ ": " ++ py_str value)%string,
                 (x, (y + 30 * Z.of_nat i)%Z)).
Proof.
  revert start acc y. induction len as [|len IH]; intros start acc y Hlen.
  - exists []. simpl. rewrite app_nil_r, Z.add_0_r. split; [done|]. split; [done|].
    intros i value Hi. lia.
  - destruct (lookup_lt_is_Some_2 regs start) as [value Hvalue]; [lia|].
    cbn [seq foldM]. unfold reg_line at 2. rewrite (getitem_Some _ _ _ Hvalue).
    cbn [mbind result_bind fst snd].
    destruct (IH (S start)
                (acc ++ [(("Reg " ++ py_str (Z.of_nat start) ++ ": " ++ py_str value)%string,
                          (x, y))])
                (y + 30)%Z) as (out & Hfold & Hout & Hat); [lia|].
    eexists (_ :: out). rewrite Hfold. split; [|split].
    + rewrite <- app_assoc. simpl. do 2 f_equal. lia.
    + simpl. by rewrite Hout.
    + intros [|i] value' Hi Hlook.
      * rewrite Nat.add_0_r in *. simpl. rewrite Z.add_0_r.
        by assert (value' = value) as -> by congruence.
      * simpl. eapply eq_trans; [apply (Hat i value'); [lia|]|].
        -- by replace (S start + i) with (start + S i) by lia.
        -- do 3 f_equal; [do 2 f_equal; lia | lia].
Qed.

(** X16: for a cursor on a snapshot, [render_registers] raises
    nothing, draws one line for each register, the line of register [i]
    reading [Reg i: value] at 30 times [i] below the position it was
    given, and returns the position 30 times the number of registers
    below. *)
Theorem render_registers_lines (v : Viewer.t) (x y : Z) (state : OrgState.t) :
  Viewer.current v = Ok state ->
  exists out,
    Viewer.render_registers v x y
    = Ok (out, (x, (y + 30 * Z.of_nat (length (OrgState.regs state)))%Z))
    /\ length out = length (OrgState.regs state)
    /\ forall i value, OrgState.regs state !! i = Some value ->
         out !! i
         = Some (("Reg " ++ py_str (Z.of_nat i) ++ ": " ++ py_str value)%string,
                 (x, (y + 30 * Z.of_nat i)%Z)).
Proof.
  intros Hcur. unfold Viewer.render_registers. rewrite Hcur. cbn [mbind result_bind].
  destruct (reg_lines_loop (OrgState.regs state) x
              (length (OrgState.regs state)) 0 [] y) as (out & Hfold & Hlen & Hat);
    [simpl; lia|].
  exists out. unfold reg_line in Hfold. rewrite Hfold. cbn [mbind result_bind fst snd].
  split; [done|]. split; [done|].
  intros i value Hi. apply Hat; [by eapply lookup_lt_Some|done].
Qed.

Lemma render_registers_lines_witness :
  exists out,
    Viewer.render_registers (Viewer.start [[avida_example_state]]) 50 540
    = Ok (out, (50, (540 + 30 * Z.of_nat (length (OrgState.regs avida_example_state)))))%Z
    /\ length out = length (OrgState.regs avida_example_state)
    /\ forall i value, OrgState.regs avida_example_state !! i = Some value ->
         out !! i
         = Some (("Reg " ++ py_str (Z.of_nat i) ++ ": " ++ py_str value)%string,
                 (50, (540 + 30 * Z.of_nat i))%Z).
Proof.
  apply (render_registers_lines (Viewer.start [[avida_example_state]]) 50 540
           avida_example_state).
  reflexivity.
Defined.

(** ** A Format-A store under the viewer *)

Lemma avida_store_shape lines store :
  parse_avida_trace lines = Ok store -> new_org_lines lines <> [] ->
  exists seq, store = [seq] /\ seq <> [].
Proof.
  unfold parse_avida_trace, avida_lines.
  destruct (foldM avida_line tracer_init lines) as [st|] eqn:Hlines; simpl; [|done].
  eapply (avida_lines_inv _ 0) in Hlines; [|by split].
  simpl in Hlines. unfold avida_inv in Hlines. unfold save_current.
  intros Hsave Hnew. destruct (org_idx st) as [i|].
  - destruct Hlines as [-> [[_ Hst] | (seq & Hst & _)]]; rewrite Hst in Hsave;
      injection Hsave as <-; eexists; (split; [done|]);
      first [done | by destruct seq].
  - destruct Hlines as [Hk _]. by apply nil_length_inv in Hk.
Qed.

(** X17: a store that the Format-A parser returns for an input with at
    least one start-of-update line can be played: from the initial cursor
    [update] raises nothing over any frames of events, the cursor stays
    on a recorded snapshot and the store is not changed. *)
Theorem avida_store_playable (lines : list string) (store : trace_store)
    (frames : list (list Viewer.event)) :
  parse_avida_trace lines = Ok store -> new_org_lines lines <> [] ->
  exists v', foldM Viewer.update (Viewer.start store) frames = Ok v'
             /\ cursor_in_range v'
             /\ Viewer.org_states v' = store.
Proof.
  intros Hparse Hnew.
  destruct (avida_store_shape _ _ Hparse Hnew) as (seq & -> & Hseq).
  apply (frames_in_range (Viewer.start [seq])).
  - by repeat constructor.
  - exists seq. repeat split; simpl; try lia. destruct seq; [done|]. simpl. lia.
Qed.

Lemma avida_store_playable_witness :
  exists v',
    foldM Viewer.update (Viewer.start [[avida_example_state]])
      [[Viewer.KEYDOWN Viewer.K_SPACE]; []; [Viewer.KEYDOWN Viewer.K_w]; [Viewer.QUIT]]
    = Ok v'
    /\ cursor_in_range v'
    /\ Viewer.org_states v' = [[avida_example_state]].
Proof.
  apply (avida_store_playable avida_example); [vm_compute; reflexivity|].
  vm_compute. discriminate.
Defined.

(** ** The instructions of the genome *)

Lemma lstrip_by_head sp l :
  match Py.lstrip_by sp l with [] => True | c :: _ => sp c = false end.
Proof.
  induction l as [|c l IH]; simpl; [done|].
  destruct (sp c) eqn:Hc; [done | by rewrite Hc].
Qed.

Lemma lstrip_by_fixed sp l :
  match l with [] => True | c :: _ => sp c = false end -> Py.lstrip_by sp l = l.
Proof. destruct l as [|c l]; simpl; [done|]. by intros ->. Qed.

Lemma lstrip_by_suffix sp l : exists pre, l = pre ++ Py.lstrip_by sp l.
Proof.
  induction l as [|c l [pre IH]]; simpl; [by exists []|].
  destruct (sp c); [|by exists []]. exists (c :: pre). simpl. by rewrite <- IH.
Qed.

Lemma rstrip_by_prefix sp l : exists post, l = Py.rstrip_by sp l ++ post.
Proof.
  unfold Py.rstrip_by. destruct (lstrip_by_suffix sp (rev l)) as [pre Hpre].
  exists (rev pre). rewrite <- rev_app_distr, <- Hpre. by rewrite rev_involutive.
Qed.

Lemma rstrip_by_idem sp l :
  Py.rstrip_by sp (Py.rstrip_by sp l) = Py.rstrip_by sp l.
Proof.
  unfold Py.rstrip_by. rewrite rev_involutive. f_equal.
  apply lstrip_by_fixed, lstrip_by_head.
Qed.

Lemma lstrip_rstrip sp l :
  match l with [] => True | c :: _ => sp c = false end ->
  Py.lstrip_by sp (Py.rstrip_by sp l) = Py.rstrip_by sp l.
Proof.
  intros Hl. apply lstrip_by_fixed.
  destruct (rstrip_by_prefix sp l) as [post Hpost].
  destruct (Py.rstrip_by sp l) as [|c r]; [done|].
  rewrite Hpost in Hl. exact Hl.
Qed.

(** Stripping twice is stripping once. *)
Lemma strip_idem s : Py.strip (Py.strip s) = Py.strip s.
Proof.
  unfold Py.strip, Py.lstrip, Py.rstrip. rewrite chars_str. f_equal.
  rewrite lstrip_rstrip by apply lstrip_by_head.
  apply rstrip_by_idem.
Qed.

Lemma genome_fold lines acc :
  fold_left
    (fun inst_list line =>
       let line := Py.strip line in
       if negb (String.eqb line "") then inst_list ++ [line] else inst_list)
    lines acc
  = acc ++ List.filter (fun s => negb (String.eqb s "")) (map Py.strip lines).
Proof.
  revert acc. induction lines as [|line lines IH]; intros acc; simpl.
  - by rewrite app_nil_r.
  - rewrite IH. destruct (negb (String.eqb (Py.strip line) "")); [|done].
    by rewrite <- app_assoc.
Qed.

(** X18: the instruction list that [set_genome] builds holds the
    stripped lines of the file that are not empty, in the order of the
    file; no instruction is empty and none has whitespace at either end,
    so that stripping it again changes nothing. *)
Theorem genome_instructions_trimmed (lines : list string) :
  genome_inst_list lines
  = List.filter (fun s => negb (String.eqb s "")) (map Py.strip lines)
  /\ Forall (fun inst => inst <> "" /\ Py.strip inst = inst) (genome_inst_list lines).
Proof.
  assert (genome_inst_list lines
          = List.filter (fun s => negb (String.eqb s "")) (map Py.strip lines)) as Heq.
  { unfold genome_inst_list. by rewrite genome_fold. }
  split; [exact Heq|]. rewrite Heq.
  apply Forall_forall. intros inst Hin.
  apply list_elem_of_In, filter_In in Hin as [Hmap Hne].
  apply in_map_iff in Hmap as (line & <- & _). split.
  - intros Hempty. rewrite Hempty in Hne. done.
  - apply strip_idem.
Qed.

(** ** Register lines of Format B *)

Lemma setitem_nat {A} (l : list A) (i : Z) (x : A) :
  (0 <= i < Z.of_nat (length l))%Z -> setitem l i x = Ok (<[Z.to_nat i := x]> l).
Proof.
  intros Hi. unfold setitem.
  destruct (Z.leb_spec 0 i); [|lia]. by destruct (Z.ltb_spec i (Z.of_nat (length l))); [|lia].
Qed.

(** [while len(regs) <= i: regs.append(0)] followed by [regs[i] = v]. *)
Lemma set_register regs (i v : Z) :
  (0 <= i)%Z ->
  setitem (pad regs i 0%Z) i v
  = Ok (<[Z.to_nat i := v]> (regs ++ replicate (S (Z.to_nat i) - length regs) 0%Z)).
Proof.
  intros Hi. rewrite setitem_nat by (split; [done|apply pad_length]).
  rewrite pad_replicate.
  by replace (Z.to_nat (i + 1 - Z.of_nat (length regs)))
    with (S (Z.to_nat i) - length regs) by lia.
Qed.

Lemma bracketed_number_nonneg part0 i :
  is_bracketed_number part0 = true -> Py.int (Py.inner part0) = Ok i -> (0 <= i)%Z.
Proof.
  unfold is_bracketed_number. intros [_ Hnum]%andb_true_iff. by apply int_isnumeric_nonneg.
Qed.

(** X19: a Format-B line whose first token is a number [i] in brackets
    and whose second token is an integer [v] raises nothing and changes
    only the registers: register [i] becomes [v], the registers already
    there keep their values, the sequence grows to [i + 1] registers if
    it was shorter, and the registers that fill the gap are 0. *)
Theorem mabe_register_line (st : tracer) (line part0 part1 : string)
    (rest : list string) (i v : Z) :
  Py.split (Py.strip line) = part0 :: part1 :: rest ->
  is_bracketed_number part0 = true ->
  Py.int (Py.inner part0) = Ok i ->
  Py.int part1 = Ok v ->
  exists regs',
    mabe_line st line
    = Ok {| org_states := org_states st; org_idx := org_idx st;
            heads := heads st; regs := regs' |}
    /\ regs' !! Z.to_nat i = Some v
    /\ length regs' = length (regs st) `max` S (Z.to_nat i)
    /\ (forall j, j <> Z.to_nat i -> j < length (regs st) -> regs' !! j = regs st !! j)
    /\ (forall j, length (regs st) <= j < Z.to_nat i -> regs' !! j = Some 0%Z).
Proof.
  intros Hparts Hb Hi Hv.
  pose proof (bracketed_number_nonneg _ _ Hb Hi) as Hnonneg.
  eexists. split.
  { unfold mabe_line. rewrite (first_token _ _ _ Hparts), Hparts. simpl.
    rewrite Hb, Hi. simpl. rewrite Hv. simpl.
    rewrite set_register by done. simpl. reflexivity. }
  set (n := length (regs st)).
  assert (Z.to_nat i < length (regs st ++ replicate (S (Z.to_nat i) - n) 0%Z)) as Hlen.
  { rewrite length_app, length_replicate. lia. }
  split; [by apply list_lookup_insert_eq|].
  split; [rewrite length_insert, length_app, length_replicate; lia|].
  split.
  - intros j Hj Hjn. rewrite list_lookup_insert_ne by done. by apply lookup_app_l.
  - intros j Hj. rewrite list_lookup_insert_ne by lia.
    rewrite lookup_app_r by lia. apply lookup_replicate_2. lia.
Qed.

Lemma mabe_register_line_witness :
  exists regs',
    mabe_line tracer_init " [2]  7 trailing"
    = Ok {| org_states := []; org_idx := None; heads := []; regs := regs' |}
    /\ regs' !! Z.to_nat 2 = Some 7%Z
    /\ length regs' = length (regs tracer_init) `max` S (Z.to_nat 2)
    /\ (forall j, j <> Z.to_nat 2 -> j < length (regs tracer_init) ->
          regs' !! j = regs tracer_init !! j)
    /\ (forall j, length (regs tracer_init) <= j < Z.to_nat 2 -> regs' !! j = Some 0%Z).
Proof.
  apply (mabe_register_line tracer_init " [2]  7 trailing" "[2]" "7" ["trailing"] 2 7);
    reflexivity.
Defined.

(** ** One snapshot for each boundary line of Format B *)

Lemma concat_length_sum {A} (l : list (list A)) :
  length (concat l) = sum_list_with length l.
Proof. induction l as [|x l IH]; simpl; [done|]. rewrite length_app. lia. Qed.

Lemma save_one_more states i h r states' :
  save states i h r = Ok states' ->
  length (concat states') = S (length (concat states)).
Proof.
  destruct (states !! i) as [seq|] eqn:Hi.
  - rewrite (save_inside _ _ _ _ _ Hi). intros [= <-].
    rewrite !concat_length_sum.
    pose proof (sum_list_with_insert length states i seq
                  (seq ++ [OrgState.new i h r]) Hi) as Hsum.
    rewrite length_app in Hsum. simpl in Hsum. lia.
  - apply lookup_ge_None in Hi. rewrite (save_beyond _ _ _ _ Hi). intros [= <-].
    rewrite !concat_app, !length_app. simpl.
    assert (concat (replicate (i - length states) ([] : list OrgState.t)) = []) as ->.
    { induction (i - length states) as [|k IH]; simpl; [done|exact IH]. }
    simpl. lia.
Qed.

Lemma mabe_boundary_parts line :
  mabe_boundary line = true ->
  exists part0, Py.split (Py.strip line) = [part0] /\ is_bracketed_number part0 = true.
Proof.
  unfold mabe_boundary.
  destruct (Py.split (Py.strip line)) as [|part0 [|part1 rest]]; [done| |done].
  intros H. by exists part0.
Qed.

Lemma mabe_line_boundary st line st' :
  mabe_boundary line = true ->
  mabe_line st line = Ok st' ->
  exists states, save_current st = Ok states
                 /\ org_states st' = states /\ is_Some (org_idx st').
Proof.
  intros (part0 & Hparts & Hb)%mabe_boundary_parts. unfold mabe_line.
  rewrite (first_token _ _ _ Hparts), Hparts. simpl. rewrite Hb.
  destruct (save_current st) as [states|]; simpl; [|done].
  destruct (Py.int (Py.inner part0)) as [i|]; simpl; [|done].
  intros [= <-]. exists states. simpl. by eauto.
Qed.

Lemma mabe_line_data st line st' :
  mabe_boundary line = false ->
  mabe_line st line = Ok st' ->
  org_states st' = org_states st /\ org_idx st' = org_idx st.
Proof.
  intros Hno. unfold mabe_line, mabe_boundary in *.
  destruct (Py.len (Py.strip line) =? 0)%nat; [by intros [= <-]|].
  destruct (Py.split (Py.strip line)) as [|part0 rest1] eqn:Hparts; simpl; [done|].
  destruct (is_bracketed_number part0) eqn:Hb.
  - destruct rest1 as [|part1 rest]; [done|]. simpl.
    destruct (Py.int (Py.inner part0)) as [i|]; simpl; [|done].
    destruct (Py.int part1) as [v|]; simpl; [|done].
    destruct (setitem _ _ _) as [regs'|]; simpl; [|done]. by intros [= <-].
  - destruct (String.eqb part0 "IP:"); [|by intros [= <-]].
    match goal with
    | |- (?m ≫= _) = _ -> _ => destruct m as [heads'|]
    end; simpl; [|done].
    by intros [= <-].
Qed.

Lemma mabe_line_inv k st line st' :
  mabe_inv k st ->
  mabe_line st line = Ok st' ->
  mabe_inv (k + length (mabe_boundary_lines [line])) st'.
Proof.
  intros Hinv Hline. unfold mabe_boundary_lines. simpl.
  destruct (mabe_boundary line) eqn:Hb; simpl.
  - apply (mabe_line_boundary _ _ _ Hb) in Hline as (states & Hsave & Hst & [i Hi]).
    unfold mabe_inv in *. rewrite Hi, Hst. unfold save_current in Hsave.
    destruct (org_idx st) as [j|].
    + apply save_one_more in Hsave. lia.
    + destruct Hinv as [-> Hnil]. rewrite Hnil in Hsave. by injection Hsave as <-.
  - apply (mabe_line_data _ _ _ Hb) in Hline as [Hs Hi].
    unfold mabe_inv in *. rewrite Hs, Hi, Nat.add_0_r. exact Hinv.
Qed.

Lemma mabe_boundary_lines_cons line lines :
  length (mabe_boundary_lines (line :: lines))
  = length (mabe_boundary_lines [line]) + length (mabe_boundary_lines lines).
Proof. unfold mabe_boundary_lines; simpl. by destruct (mabe_boundary line). Qed.

Lemma mabe_lines_inv lines k st st' :
  mabe_inv k st ->
  foldM mabe_line st lines = Ok st' ->
  mabe_inv (k + length (mabe_boundary_lines lines)) st'.
Proof.
  revert k st. induction lines as [|line lines IH]; cbn [foldM]; intros k st Hinv.
  - intros [= <-]. simpl. by rewrite Nat.add_0_r.
  - intros Hrest.
    destruct (mabe_line st line) as [st1|] eqn:Hline; simpl in Hrest; [|done].
    rewrite mabe_boundary_lines_cons, Nat.add_assoc.
    eapply IH; [|exact Hrest]. by eapply mabe_line_inv.
Qed.

(** X20: whatever the Format-B parser accepts, the store it returns
    holds, over all organisms together, exactly as many snapshots as the
    input has boundary lines. *)
Theorem mabe_snapshots_per_boundary (lines : list string) (store : trace_store) :
  parse_mabe_trace lines = Ok store ->
  length (concat store) = length (mabe_boundary_lines lines).
Proof.
  unfold parse_mabe_trace, mabe_lines.
  destruct (foldM mabe_line tracer_init lines) as [st|] eqn:Hlines; simpl; [|done].
  eapply (mabe_lines_inv _ 0) in Hlines; [|by split].
  simpl in Hlines. unfold mabe_inv in Hlines. unfold save_current.
  destruct (org_idx st) as [i|].
  - intros Hsave%save_one_more. lia.
  - destruct Hlines as [-> ->]. by intros [= <-].
Qed.

Lemma mabe_snapshots_per_boundary_witness :
  length (concat [[mabe_example_state]; [OrgState.new 1 [] []]])
  = length (mabe_boundary_lines ["[0]"; "[0] 7"; "IP: 2 RH: 1 (nop)"; "[1]"]).
Proof.
  apply (mabe_snapshots_per_boundary
           ["[0]"; "[0] 7"; "IP: 2 RH: 1 (nop)"; "[1]"]).
  vm_compute. reflexivity.
Defined.

(** ** Snapshots lie in the slot of their organism *)

Lemma save_slots states i h r states' :
  slots_consistent states ->
  save states i h r = Ok states' ->
  slots_consistent states'.
Proof.
  intros Hslots. destruct (states !! i) as [seq|] eqn:Hi.
  - rewrite (save_inside _ _ _ _ _ Hi). intros [= <-] j seqj s Hj Hs.
    destruct (decide (j = i)) as [->|Hne].
    + rewrite list_lookup_insert_eq in Hj by (by eapply lookup_lt_Some).
      injection Hj as <-. apply elem_of_app in Hs as [Hs|Hs]; [by eapply Hslots|].
      by apply list_elem_of_singleton in Hs as ->.
    + rewrite list_lookup_insert_ne in Hj by done. by eapply Hslots.
  - apply lookup_ge_None in Hi. rewrite (save_beyond _ _ _ _ Hi).
    intros [= <-] j seqj s Hj Hs.
    destruct (Nat.lt_ge_cases j (length states)) as [Hlt|Hge].
    { rewrite lookup_app_l in Hj by done. by eapply Hslots. }
    rewrite lookup_app_r in Hj by done.
    destruct (Nat.lt_ge_cases (j - length states) (i - length states)) as [Hgap|Hlast].
    { rewrite lookup_app_l in Hj by (by rewrite length_replicate).
      apply lookup_replicate in Hj as [-> _]. by apply elem_of_nil in Hs. }
    rewrite lookup_app_r in Hj by (by rewrite length_replicate).
    rewrite length_replicate in Hj.
    destruct (j - length states - (i - length states)) as [|m] eqn:Hm; [|done].
    injection Hj as <-. apply list_elem_of_singleton in Hs as ->. simpl. lia.
Qed.

Lemma save_current_slots st states :
  slots_consistent (org_states st) ->
  save_current st = Ok states ->
  slots_consistent states.
Proof.
  unfold save_current. destruct (org_idx st); [by apply save_slots|].
  by intros H [= <-].
Qed.

Lemma foldM_invariant {A S} (f : S -> A -> result S) (P : S -> Prop) l s s' :
  (forall s x s', P s -> f s x = Ok s' -> P s') ->
  P s -> foldM f s l = Ok s' -> P s'.
Proof.
  intros Hstep. revert s. induction l as [|x l IH]; simpl; intros s Hs.
  - by intros [= <-].
  - destruct (f s x) as [s1|] eqn:Hf; simpl; [|done]. apply IH. by eapply Hstep.
Qed.

Lemma mabe_line_slots st line st' :
  slots_consistent (org_states st) ->
  mabe_line st line = Ok st' ->
  slots_consistent (org_states st').
Proof.
  intros Hslots Hline. destruct (mabe_boundary line) eqn:Hb.
  - apply (mabe_line_boundary _ _ _ Hb) in Hline as (states & Hsave & -> & _).
    by eapply save_current_slots.
  - apply (mabe_line_data _ _ _ Hb) in Hline as [-> _]. done.
Qed.

Lemma avida_line_slots st line st' :
  slots_consistent (org_states st) ->
  avida_line st line = Ok st' ->
  slots_consistent (org_states st').
Proof.
  intros Hslots Hline.
  destruct (is_new_org (Py.split (Py.strip line))) eqn:Hb.
  - apply (avida_line_new_org _ _ _ Hb) in Hline as (states & Hsave & ->).
    by eapply save_current_slots.
  - apply (avida_line_data _ _ _ Hb) in Hline as [-> _]. done.
Qed.

(** X21: in a store that either parser returns, every snapshot filed
    under an organism index carries that index in its own [idx] field. *)
Theorem snapshots_in_their_slots (lines : list string) (store : trace_store) :
  parse_mabe_trace lines = Ok store \/ parse_avida_trace lines = Ok store ->
  slots_consistent store.
Proof.
  assert (slots_consistent (org_states tracer_init)) as Hinit.
  { intros i seq s Hi. simpl in Hi. by destruct i. }
  unfold parse_mabe_trace, parse_avida_trace, mabe_lines, avida_lines.
  intros [H | H].
  - destruct (foldM mabe_line tracer_init lines) as [st|] eqn:Hlines; simpl in H; [|done].
    eapply save_current_slots; [|exact H].
    eapply (foldM_invariant mabe_line (fun st => slots_consistent (org_states st)));
      [|exact Hinit|exact Hlines].
    intros s x s'. apply mabe_line_slots.
  - destruct (foldM avida_line tracer_init lines) as [st|] eqn:Hlines; simpl in H; [|done].
    eapply save_current_slots; [|exact H].
    eapply (foldM_invariant avida_line (fun st => slots_consistent (org_states st)));
      [|exact Hinit|exact Hlines].
    intros s x s'. apply avida_line_slots.
Qed.

Lemma snapshots_in_their_slots_witness :
  slots_consistent [[]; []; [OrgState.new 2 [] [0; 5]%Z]].
Proof.
  apply (snapshots_in_their_slots ["[2]"; "[1] 5"]). left. vm_compute. reflexivity.
Defined.

(** ** What the outcome of a comparison tells *)

Lemma for_each_next_inv {A R} (body : A -> flow R) l :
  for_each body l = Next -> forall x, x ∈ l -> body x = Next.
Proof.
  induction l as [|y l IH]; simpl; [by intros _ x ?%elem_of_nil|].
  destruct (body y) eqn:Hy; [|done..].
  intros Hl x [->|Hx]%elem_of_cons; [done|by apply IH].
Qed.

(** A loop over [range(n)] that returns does so at a first round. *)
Lemma for_each_seq_return {R} (body : nat -> flow R) n r :
  for_each body (seq 0 n) = Return r ->
  exists s, s < n /\ for_each body (seq 0 s) = Next /\ body s = Return r.
Proof.
  induction n as [|n IH]; [done|].
  rewrite seq_S, for_each_app. simpl.
  destruct (for_each body (seq 0 n)) as [|r'|e] eqn:Hpre; simpl.
  - destruct (body n) eqn:Hn; [done| |done]. intros [= <-]. exists n. by eauto.
  - intros [= <-]. destruct (IH eq_refl) as (s & Hs & Hnext & Hret).
    exists s. split; [lia|done].
  - done.
Qed.

Lemma compare_reg_next a b step r :
  compare_reg a b step r = Next ->
  exists v, OrgState.regs a !! r = Some v /\ OrgState.regs b !! r = Some v.
Proof.
  unfold compare_reg, getitem.
  destruct (OrgState.regs a !! r) as [x|]; simpl; [|done].
  destruct (OrgState.regs b !! r) as [y|]; simpl; [|done].
  destruct (Z.eqb_spec x y) as [->|]; [|done]. by eauto.
Qed.

Lemma compare_head_next a b step k :
  compare_head a b step k = Next ->
  exists v, Dict.get (OrgState.heads a) k = Some v
            /\ Dict.get (OrgState.heads b) k = Some v.
Proof.
  unfold compare_head, dict_item.
  destruct (Dict.get (OrgState.heads b) k) as [y|]; [|done].
  destruct (Dict.get (OrgState.heads a) k) as [x|]; simpl; [|done].
  destruct (Z.eqb_spec x y) as [->|]; [|done]. by eauto.
Qed.

Lemma compare_states_next a b step :
  compare_states a b step = Next -> snapshots_agree a b.
Proof.
  unfold compare_states.
  destruct (for_each (compare_reg a b step) (seq 0 6)) eqn:Hregs; simpl; [|done..].
  intros Hheads. split.
  - intros r Hr. eapply compare_reg_next, (for_each_next_inv _ _ Hregs).
    apply elem_of_seq. lia.
  - intros k Hk. eapply compare_head_next. by eapply (for_each_next_inv _ _ Hheads).
Qed.

Lemma compare_states_not_exhausted a b step msg s t :
  compare_states a b step = Return (msg, s) -> msg <> ReachedEnd t.
Proof.
  unfold compare_states.
  destruct (for_each (compare_reg a b step) (seq 0 6)) as [|r|e] eqn:Hregs; simpl.
  - intros (k & _ & Hk)%for_each_return. unfold compare_head in Hk.
    destruct (Dict.get (OrgState.heads b) k); [|by inversion Hk].
    destruct (dict_item _ _); simpl in Hk; [|done].
    destruct (negb _); [|done]. by inversion Hk.
  - intros [= ->]. apply for_each_return in Hregs as (x & _ & Hx).
    unfold compare_reg in Hx.
    destruct (getitem (OrgState.regs a) x); simpl in Hx; [|done].
    destruct (getitem (OrgState.regs b) x); simpl in Hx; [|done].
    destruct (negb _); [|done]. by inversion Hx.
  - done.
Qed.

Lemma compare_states_own_step a b step ret :
  compare_states a b step = Return ret -> ret.2 = step.
Proof.
  unfold compare_states.
  destruct (for_each (compare_reg a b step) (seq 0 6)) as [|r|e] eqn:Hregs; simpl.
  - intros (k & _ & Hk)%for_each_return. unfold compare_head in Hk.
    destruct (Dict.get (OrgState.heads b) k); [|by inversion Hk].
    destruct (dict_item _ _); simpl in Hk; [|done].
    destruct (negb _); [|done]. by inversion Hk.
  - intros [= ->]. apply for_each_return in Hregs as (x & _ & Hx).
    unfold compare_reg in Hx.
    destruct (getitem (OrgState.regs a) x); simpl in Hx; [|done].
    destruct (getitem (OrgState.regs b) x); simpl in Hx; [|done].
    destruct (negb _); [|done]. by inversion Hx.
  - done.
Qed.

Section outcomes.
Context (self other : trace_store) (org_idx : nat).
Context (seq1 seq2 : list OrgState.t).
Hypothesis Hself : self !! org_idx = Some seq1.
Hypothesis Hother : other !! org_idx = Some seq2.

(** The steps that passed are steps of both traces on which the
    snapshots agree. *)
Lemma passed_steps_agree s :
  s <= length seq1 ->
  for_each (compare_step self other org_idx) (seq 0 s) = Next ->
  s <= length seq2
  /\ forall t x y, t < s -> seq1 !! t = Some x -> seq2 !! t = Some y ->
                   snapshots_agree x y.
Proof using Hself Hother.
  intros Hs Hpass. pose proof (for_each_next_inv _ _ Hpass) as Hnext. split.
  - destruct (Nat.le_gt_cases s (length seq2)) as [|Hlt]; [done|].
    specialize (Hnext (length seq2)).
    rewrite (compare_step_exhausted self other org_idx seq2 Hother) in Hnext by done.
    discriminate Hnext. apply elem_of_seq. lia.
  - intros t x y Ht Hx Hy. apply (compare_states_next x y t).
    rewrite <- (compare_step_states self other org_idx seq1 seq2 Hself Hother t x y)
      by done.
    apply Hnext, elem_of_seq. lia.
Qed.

Lemma no_divergence_exactly :
  compare_org_trace self other org_idx = Ok {| printed := None; returned := None |}
  <-> length seq1 <= length seq2
      /\ forall t x y, seq1 !! t = Some x -> seq2 !! t = Some y -> snapshots_agree x y.
Proof using Hself Hother.
  unfold compare_org_trace. rewrite (getitem_Some _ _ _ Hself). simpl. split.
  - destruct (for_each _ _) as [|[msg step]|e] eqn:Hloop; [|done..]. intros _.
    destruct (passed_steps_agree (length seq1)) as [Hlen Hagree]; [done..|].
    split; [done|]. intros t x y Hx Hy. apply (Hagree t); [|done..].
    by eapply lookup_lt_Some.
  - intros [Hlen Hagree].
    rewrite (compare_steps_pass self other org_idx seq1 seq2 Hself Hother); [done..|].
    intros t x y _. apply Hagree.
Qed.

Lemma divergence_at_first_step msg s :
  compare_org_trace self other org_idx
  = Ok {| printed := Some msg; returned := Some s |} ->
  s < length seq1 /\ s <= length seq2 /\ report_step msg = s
  /\ (forall t x y, t < s -> seq1 !! t = Some x -> seq2 !! t = Some y ->
                    snapshots_agree x y)
  /\ (msg = ReachedEnd s <-> s = length seq2).
Proof using Hself Hother.
  unfold compare_org_trace. rewrite (getitem_Some _ _ _ Hself). simpl.
  destruct (for_each _ _) as [|[msg' step]|e] eqn:Hloop; [done| |done].
  intros [= -> ->].
  apply for_each_seq_return in Hloop as (t & Ht & Hpass & Hret).
  destruct (passed_steps_agree t) as [Hlen Hagree]; [lia|done|].
  pose proof (compare_step_return _ _ _ _ _ Hret) as Hrep. simpl in Hrep.
  assert (s = t) as ->.
  { destruct (Nat.le_gt_cases (length seq2) t) as [Hle|Hlt].
    - rewrite (compare_step_exhausted self other org_idx seq2 Hother) in Hret by done.
      by inversion Hret.
    - destruct (lookup_lt_is_Some_2 seq1 t) as [x Hx]; [lia|].
      destruct (lookup_lt_is_Some_2 seq2 t) as [y Hy]; [lia|].
      rewrite (compare_step_states self other org_idx seq1 seq2 Hself Hother t x y)
        in Hret by done.
      by apply compare_states_own_step in Hret. }
  split; [done|]. split; [done|]. split; [by rewrite Hrep|].
  split; [exact Hagree|]. split.
  - intros ->. destruct (Nat.le_gt_cases (length seq2) t) as [Hle|Hlt]; [lia|].
    destruct (lookup_lt_is_Some_2 seq1 t) as [x Hx]; [lia|].
    destruct (lookup_lt_is_Some_2 seq2 t) as [y Hy]; [lia|].
    rewrite (compare_step_states self other org_idx seq1 seq2 Hself Hother t x y)
      in Hret by done.
    by apply (compare_states_not_exhausted _ _ _ _ _ t) in Hret.
  - intros ->.
    rewrite (compare_step_exhausted self other org_idx seq2 Hother) in Hret by done.
    by inversion Hret.
Qed.
End outcomes.

(** X22: for an organism index valid in both stores, the comparator
    returns without a report exactly when the second store has at least
    as many steps as the first and, at every step of the first, both
    snapshots carry the registers 0..5 with equal values and every head
    of the first snapshot is in the second with an equal value. *)
Theorem no_divergence_iff (self other : trace_store) (i : nat)
    (seq1 seq2 : list OrgState.t) :
  self !! i = Some seq1 -> other !! i = Some seq2 ->
  (compare_org_trace self other i = Ok {| printed := None; returned := None |}
   <-> length seq1 <= length seq2
       /\ forall t x y, seq1 !! t = Some x -> seq2 !! t = Some y -> snapshots_agree x y).
Proof. apply no_divergence_exactly. Qed.

Lemma no_divergence_iff_witness :
  compare_org_trace six_store
    [[OrgState.new 0 [("IP", 3%Z); ("RH", 1%Z)] (six_zeros ++ [4%Z]);
      OrgState.new 0 [] []]] 0
  = Ok {| printed := None; returned := None |}.
Proof.
  apply (proj2 (no_divergence_iff six_store
                  [[OrgState.new 0 [("IP", 3%Z); ("RH", 1%Z)] (six_zeros ++ [4%Z]);
                    OrgState.new 0 [] []]] 0
                  [OrgState.new 0 [("IP", 3%Z)] six_zeros]
                  [OrgState.new 0 [("IP", 3%Z); ("RH", 1%Z)] (six_zeros ++ [4%Z]);
                   OrgState.new 0 [] []]
                  eq_refl eq_refl)).
  split; [simpl; lia|].
  intros [|t] x y; simpl; [|done]. intros [= <-] [= <-]. split.
  - intros r Hr. do 6 (destruct r as [|r]; [by eexists|]). lia.
  - intros k Hk. apply list_elem_of_singleton in Hk as ->. by eexists.
Defined.

(** X23: for an organism index valid in both stores, when the
    comparator returns a step with a report, that step is a step of the
    first trace, the report names it, every earlier step is a step of
    both traces on which the snapshots agree, and the report is the one
    of the exhausted second trace exactly when the step is the length of
    the second trace. *)
Theorem divergence_is_first (self other : trace_store) (i : nat)
    (seq1 seq2 : list OrgState.t) (msg : report) (s : nat) :
  self !! i = Some seq1 -> other !! i = Some seq2 ->
  compare_org_trace self other i = Ok {| printed := Some msg; returned := Some s |} ->
  s < length seq1 /\ s <= length seq2 /\ report_step msg = s
  /\ (forall t x y, t < s -> seq1 !! t = Some x -> seq2 !! t = Some y ->
                    snapshots_agree x y)
  /\ (msg = ReachedEnd s <-> s = length seq2).
Proof. intros Hself Hother. by apply divergence_at_first_step. Qed.

Lemma divergence_is_first_witness :
  0 < length [OrgState.new 0 [("IP", 3%Z)] six_zeros]
  /\ 0 <= length ([] : list OrgState.t)
  /\ report_step (ReachedEnd 0) = 0
  /\ (forall t x y, t < 0 ->
        [OrgState.new 0 [("IP", 3%Z)] six_zeros] !! t = Some x ->
        ([] : list OrgState.t) !! t = Some y -> snapshots_agree x y)
  /\ (ReachedEnd 0 = ReachedEnd 0 <-> 0 = length ([] : list OrgState.t)).
Proof.
  apply (divergence_is_first six_store [[]] 0); reflexivity.
Defined.

(** ** The only exception of the comparator *)

Lemma getitem_raises {A} (l : list A) i e : getitem l i = Raise e -> e = IndexError.
Proof. unfold getitem. destruct (l !! i); congruence. Qed.

Lemma compare_states_throws a b step e :
  compare_states a b step = Throw e -> e = IndexError.
Proof.
  unfold compare_states.
  destruct (for_each (compare_reg a b step) (seq 0 6)) as [|r|e'] eqn:Hregs; simpl.
  - intros (k & Hk & Hthrow)%for_each_throw. exfalso. unfold compare_head in Hthrow.
    destruct (Dict.get (OrgState.heads b) k); [|done].
    destruct (dict_get_keys _ _ Hk) as [v Hv]. unfold dict_item in Hthrow.
    rewrite Hv in Hthrow. simpl in Hthrow. by destruct (negb _).
  - done.
  - intros [= ->]. apply for_each_throw in Hregs as (r & _ & Hthrow).
    unfold compare_reg in Hthrow.
    destruct (getitem (OrgState.regs a) r) eqn:Ha; simpl in Hthrow;
      [|injection Hthrow as <-; by eapply getitem_raises].
    destruct (getitem (OrgState.regs b) r) eqn:Hb; simpl in Hthrow;
      [|injection Hthrow as <-; by eapply getitem_raises].
    by destruct (negb _).
Qed.

Lemma compare_step_throws self other i step e :
  compare_step self other i step = Throw e -> e = IndexError.
Proof.
  unfold compare_step.
  destruct (getitem other i) as [seq2|] eqn:Hother; simpl;
    [|intros [= <-]; by eapply getitem_raises].
  destruct (length seq2 <=? step)%nat; [done|].
  destruct (getitem self i) as [seq1|] eqn:Hself; simpl;
    [|intros [= <-]; by eapply getitem_raises].
  destruct (getitem seq1 step) as [a|] eqn:Ha; simpl;
    [|intros [= <-]; by eapply getitem_raises].
  destruct (getitem seq2 step) as [b|] eqn:Hb; simpl;
    [|intros [= <-]; by eapply getitem_raises].
  apply compare_states_throws.
Qed.

(** X24: whatever the stores and the organism index, the only
    exception that the comparator raises is [IndexError]: the lookup of a
    head in the second snapshot is guarded by the membership test, and
    the lookup in the first snapshot takes its key from that snapshot. *)
Theorem compare_raises_only_index_error (self other : trace_store) (i : nat)
    (e : py_exn) :
  compare_org_trace self other i = Raise e -> e = IndexError.
Proof.
  unfold compare_org_trace.
  destruct (getitem self i) as [seq1|] eqn:Hself; simpl;
    [|intros [= <-]; by eapply getitem_raises].
  destruct (for_each _ _) as [|[msg step]|e'] eqn:Hloop; [done..|].
  intros [= ->]. apply for_each_throw in Hloop as (s & _ & Hs).
  by eapply compare_step_throws.
Qed.

Lemma compare_raises_only_index_error_witness :
  compare_org_trace short_store [] 0 = Raise IndexError /\ IndexError = IndexError.
Proof.
  assert (compare_org_trace short_store [] 0 = Raise IndexError) as H
    by (vm_compute; reflexivity).
  split; [exact H|].
  exact (compare_raises_only_index_error short_store [] 0 IndexError H).
Defined.
